(** * FeatureSparseToDense: the sparse-to-dense layer of
      caffe2/python/layers/feature_sparse_to_dense.py

    The layer is a three-way dispatch on a feature-type tag.  Its
    constructor builds the output schema, [add_ops] emits the graph
    operators and [get_metadata] builds a side table.  The three methods
    are embedded below as functions in a small state-and-exception monad,
    one definition per Python method and one per loop body. *)

From Stdlib Require Import String Ascii List ZArith Lia.
From stdpp Require Import base gmap strings list.

#[local] Set Warnings "-register-all".

Open Scope string_scope.
Open Scope list_scope.

(** ** Python exceptions and the state-and-exception monad *)

Inductive Exception : Type :=
| AssertionError
| TypeError (msg : string)
| KeyError (key : string)
| AttributeError (attr : string)
| IndexError
| ValueError (msg : string).

Inductive Result (A : Type) : Type :=
| Ok (a : A)
| Raise (e : Exception).

Arguments Ok {A} a.
Arguments Raise {A} e.

(** A computation over a mutable object of type [S]: it returns a value or
    raises, and in both cases leaves a (possibly changed) object behind. *)
Definition M (S A : Type) : Type := S -> Result A * S.

Definition ret {S A} (a : A) : M S A := fun s => (Ok a, s).

Definition raise {S A} (e : Exception) : M S A := fun s => (Raise e, s).

Definition bind {S A B} (m : M S A) (k : A -> M S B) : M S B :=
  fun s =>
    match m s with
    | (Ok a, s') => k a s'
    | (Raise e, s') => (Raise e, s')
    end.

Notation "x <~ m ;; k" := (bind m (fun x => k))
  (at level 100, m at next level, right associativity).
Notation "m ;;; k" := (bind m (fun _ => k))
  (at level 100, right associativity).

(** [assert cond] *)
Definition assert_ {S} (cond : bool) : M S unit :=
  if cond then ret tt else raise AssertionError.

(** A value that is computed without touching the object. *)
Definition lift {S A} (r : Result A) : M S A := fun s => (r, s).

(** [for x in xs: acc = body(acc, x)], the loop stopping at the first
    exception. *)
Fixpoint for_each {S A B} (body : B -> A -> M S B) (acc : B) (xs : list A)
  : M S B :=
  match xs with
  | [] => ret acc
  | x :: xs' => acc' <~ body acc x ;; for_each body acc' xs'
  end.

(** The same loop for a body that has no object to mutate. *)
Fixpoint for_each_pure {A B} (body : B -> A -> Result B) (acc : B)
  (xs : list A) : Result B :=
  match xs with
  | [] => Ok acc
  | x :: xs' =>
      match body acc x with
      | Ok acc' => for_each_pure body acc' xs'
      | Raise e => Raise e
      end
  end.

(** ** Blob references

    The layer never looks inside a blob reference; it obtains them from
    four places and hands them on.  A reference is kept as the record of
    where it came from. *)
Inductive BlobReference : Type :=
| LayerBlob (name : string) (serial : nat)
    (* self.get_next_blob_reference(name), the serial-th request *)
| NetBlob (prefix : string) (serial : nat)
    (* net.NextScopedBlob(prefix), the serial-th request *)
| RecordBlob (field : string) (path : list string)
    (* record[field].<path>(), a member of the input record *)
| GlobalConstant (key : string).
    (* model.global_constants[key] *)

(** ** The feature specification

    [input_specs] is a list of pairs [(field, feature_specs)]; the
    constructor's docstring names the three members it reads. *)
Record FeatureSpec : Type := {
  feature_type : string;
  feature_names : list string;
  feature_ids : list Z
}.

(** ** The schema values the layer builds *)
Module schema.

Inductive NpType : Type := float32 | int32 | int64.

(** The first argument of [schema.Scalar] as the layer writes it:
    [np.int64], or the pair [(np.float32, (n,))] of a base type and a
    shape. *)
Inductive DType : Type :=
| Plain (base : NpType)
| WithShape (base : NpType) (shape : list nat).

(** [schema.Metadata(feature_specs=...)] *)
Record Metadata : Type := { feature_specs : FeatureSpec }.

(** Modelled from the spec: the module caffe2.python.schema (Scalar,
    Struct, Metadata, attach_metadata_to_scalars) is not among the
    sources; the spec calls its values "in-memory schema structs".  A
    [Scalar] holds its dtype, its blob and the metadata attached to it.  A
    [Struct] holds its [fields], the ordered dictionary from names to
    fields that [Struct.__init__] builds ([new_Struct] below); the names
    of a struct built that way contain no separator and are distinct. *)
Inductive Field : Type :=
| Scalar (dtype : DType) (blob : BlobReference) (metadata : option Metadata)
| Struct (fields : list (string * Field)).

(** [struct.fields], the named fields of a struct. *)
Definition fields_of (f : Field) : list (string * Field) :=
  match f with
  | Struct fields => fields
  | Scalar _ _ _ => []
  end.

(** Modelled from the spec: [fields.get(name)] on the ordered dictionary
    of a struct. *)
Fixpoint lookup_field (name : string) (fields : list (string * Field))
  : option Field :=
  match fields with
  | [] => None
  | (n, f) :: rest =>
      if String.eqb n name then Some f else lookup_field name rest
  end.

(** Modelled from the spec: the ordered dictionary after
    [fields[name] = g(fields[name])]; the position of the name is kept. *)
Fixpoint modify_field (g : Field -> Field) (name : string)
  (fields : list (string * Field)) : list (string * Field) :=
  match fields with
  | [] => []
  | (n, f) :: rest =>
      if String.eqb n name then (n, g f) :: rest
      else (n, f) :: modify_field g name rest
  end.

(** Modelled from the spec: [FIELD_SEPARATOR] of caffe2.python.schema. *)
Definition FIELD_SEPARATOR : ascii := ":"%char.

(** Modelled from the spec: [FIELD_SEPARATOR in name]. *)
Fixpoint has_separator (name : string) : bool :=
  match name with
  | EmptyString => false
  | String c rest => Ascii.eqb c FIELD_SEPARATOR || has_separator rest
  end.

(** Modelled from the spec: [name.split(FIELD_SEPARATOR)], the components
    of a nested name; the code splits off one component at a time. *)
Fixpoint components (name : string) : list string :=
  match name with
  | EmptyString => [EmptyString]
  | String c rest =>
      if Ascii.eqb c FIELD_SEPARATOR then EmptyString :: components rest
      else
        match components rest with
        | first :: others => String c first :: others
        | [] => [String c EmptyString]
        end
  end.

(** Modelled from the spec: the assertions [Struct.__init__] makes on the
    names it is given, before it builds anything: no name is empty and no
    name is 'lengths'. *)
Definition check_names (names : list string) : Result unit :=
  if forallb (fun name => negb (String.eqb name "")
                          && negb (String.eqb name "lengths")) names
  then Ok tt
  else Raise AssertionError.

Section Merge.

Variable add_fields : Field -> Field -> Result Field.

(** Modelled from the spec: the loop of [Struct.__add__] over the
    children of the right operand: a new name is appended, a name already
    there is merged. *)
Fixpoint merge (children others : list (string * Field))
  : Result (list (string * Field)) :=
  match others with
  | [] => Ok children
  | (name, other) :: rest =>
      match lookup_field name children with
      | None => merge (children ++ [(name, other)]) rest
      | Some child =>
          match add_fields child other with
          | Ok merged => merge (modify_field (fun _ => merged) name children) rest
          | Raise e => Raise e
          end
      end
  end.

End Merge.

(** Modelled from the spec: [a + b] on fields of caffe2.python.schema.
    Two structs are merged name by name, and the result is built by the
    constructor from the merged children; their names are those of two
    structs and so need only pass the assertions.  Any other pair of
    operands is a TypeError. *)
Fixpoint add (a b : Field) {struct b} : Result Field :=
  match a, b with
  | Struct children, Struct others =>
      match merge (fun child other => add child other) children others with
      | Ok merged =>
          match check_names (map fst merged) with
          | Ok _ => Ok (Struct merged)
          | Raise e => Raise e
          end
      | Raise e => Raise e
      end
  | _, _ => Raise (TypeError "unsupported operand type(s) for +")
  end.

(** Modelled from the spec: one step of the loop of [Struct.__init__]: a
    new name is appended, two structs of one name are merged, anything
    else of one name is a ValueError. *)
Definition insert_field (fields : list (string * Field)) (name : string)
  (field : Field) : Result (list (string * Field)) :=
  match lookup_field name fields with
  | None => Ok (fields ++ [(name, field)])
  | Some existing =>
      match existing, field with
      | Struct _, Struct _ =>
          match add existing field with
          | Ok merged => Ok (modify_field (fun _ => merged) name fields)
          | Raise e => Raise e
          end
      | _, _ => Raise (ValueError ("Duplicate field name: " ++ name))
      end
  end.

(** Modelled from the spec: [Struct((name, field))] for one name without
    separator. *)
Definition single (name : string) (field : Field) : Result Field :=
  match check_names [name] with
  | Ok _ => Ok (Struct [(name, field)])
  | Raise e => Raise e
  end.

(** Modelled from the spec: [create_internal] of
    [Struct._struct_from_nested_name], on the components that follow the
    first: the field wrapped in one struct per component, innermost
    first. *)
Fixpoint create_internal (names : list string) (field : Field)
  : Result Field :=
  match names with
  | [] => Ok field
  | name :: rest =>
      match create_internal rest field with
      | Ok added => single name added
      | Raise e => Raise e
      end
  end.

(** Modelled from the spec:
    [Struct._struct_from_nested_name(nested_name, field)]. *)
Definition _struct_from_nested_name (nested_name : string) (field : Field)
  : Result (string * Field) :=
  match components nested_name with
  | [] => Ok (nested_name, field)
  | name :: rest =>
      match create_internal rest field with
      | Ok nested => Ok (name, nested)
      | Raise e => Raise e
      end
  end.

(** Modelled from the spec: body of the loop of [Struct.__init__]. *)
Definition init_field (fields : list (string * Field))
  (item : string * Field) : Result (list (string * Field)) :=
  let '(name, field) := item in
  match (if has_separator name then _struct_from_nested_name name field
         else Ok (name, field)) with
  | Ok (name, field) => insert_field fields name field
  | Raise e => Raise e
  end.

(** Modelled from the spec: [schema.Struct] called on a list of fields,
    the constructor of caffe2.python.schema.  It asserts that no name is
    empty or 'lengths', turns a name 'a:b' into a struct 'a' with a field
    'b', merges structs that come under one name and raises ValueError for
    any other repeated name. *)
Definition new_Struct (fields : list (string * Field)) : Result Field :=
  match check_names (map fst fields) with
  | Raise e => Raise e
  | Ok _ =>
      match for_each_pure init_field [] fields with
      | Ok built => Ok (Struct built)
      | Raise e => Raise e
      end
  end.

(** Modelled from the spec: [Struct._get_field_by_nested_name], the walk
    along the components of a nested name. *)
Fixpoint get_by_path (path : list string) (f : Field) : option Field :=
  match path with
  | [] => Some f
  | name :: rest =>
      match f with
      | Struct fields =>
          match lookup_field name fields with
          | Some child => get_by_path rest child
          | None => None
          end
      | Scalar _ _ _ => None
      end
  end.

(** Modelled from the spec: [struct[name]] of caffe2.python.schema, for a
    field name, nested or not; a missing name raises KeyError. *)
Definition getitem (struct : Field) (name : string) : Result Field :=
  match struct with
  | Struct _ =>
      match get_by_path (components name) struct with
      | Some f => Ok f
      | None => Raise (KeyError name)
      end
  | Scalar _ _ _ => Raise (TypeError "'Scalar' object is not subscriptable")
  end.

(** Modelled from the spec: [struct.name] of caffe2.python.schema, for a
    field name; a missing name raises AttributeError. *)
Definition getattr (struct : Field) (name : string) : Result Field :=
  match struct with
  | Struct fields =>
      match lookup_field name fields with
      | Some f => Ok f
      | None => Raise (AttributeError name)
      end
  | Scalar _ _ _ => Raise (AttributeError name)
  end.

(** Modelled from the spec: [scalar()] of caffe2.python.schema, the blob
    of a scalar. *)
Definition call (scalar : Field) : Result BlobReference :=
  match scalar with
  | Scalar _ b _ => Ok b
  | Struct _ => Raise (TypeError "'Struct' object is not callable")
  end.

(** Modelled from the spec: [field.field_blobs()] of
    caffe2.python.schema, the blobs of the scalars below [field], in field
    order. *)
Fixpoint field_blobs (f : Field) : list BlobReference :=
  match f with
  | Scalar _ b _ => [b]
  | Struct fields => flat_map (fun '(_, c) => field_blobs c) fields
  end.

(** Modelled from the spec: [field.field_types()] of
    caffe2.python.schema, the dtypes of the scalars below [field], in field
    order. *)
Fixpoint field_types (f : Field) : list DType :=
  match f with
  | Scalar d _ _ => [d]
  | Struct fields => flat_map (fun '(_, c) => field_types c) fields
  end.

(** Modelled from the spec: [attach_metadata_to_scalars(field, metadata)]
    of caffe2.python.schema: every scalar below [field] gets the metadata.
    The Python call mutates the scalars; the function returns the field
    after the call. *)
Fixpoint attach_metadata_to_scalars (md : Metadata) (f : Field) : Field :=
  match f with
  | Scalar d b _ => Scalar d b (Some md)
  | Struct fields =>
      Struct (map (fun '(n, c) => (n, attach_metadata_to_scalars md c)) fields)
  end.

(** Modelled from the spec: the field after a mutation [g] of the field
    found along [path]. *)
Fixpoint modify_path (g : Field -> Field) (path : list string) (f : Field)
  : Field :=
  match path with
  | [] => g f
  | name :: rest =>
      match f with
      | Struct fields => Struct (modify_field (modify_path g rest) name fields)
      | Scalar _ _ _ => f
      end
  end.

(** Modelled from the spec: [g(struct[name])] for a [g] that mutates its
    argument: the struct after the call. *)
Definition mutate_item (g : Field -> Field) (struct : Field) (name : string)
  : Result Field :=
  match getitem struct name with
  | Ok _ => Ok (modify_path g (components name) struct)
  | Raise e => Raise e
  end.

(** The schema with the metadata forgotten: what was declared. *)
Fixpoint declared (f : Field) : Field :=
  match f with
  | Scalar d b _ => Scalar d b None
  | Struct fields => Struct (map (fun '(n, c) => (n, declared c)) fields)
  end.

End schema.

(** ** The layer *)
Module FeatureSparseToDense.

Definition _known_types : list string := ["FLOAT"; "ID_LIST"].

(** What the constructor reads of [model]: the count of blob references
    handed out so far. *)
Record Model : Type := { blobs_requested : nat }.

(** Modelled from the spec: ModelLayer.get_next_blob_reference is not
    among the sources.  It hands out a new reference for the requested
    name on every call. *)
Definition get_next_blob_reference (name : string) : M Model BlobReference :=
  fun model =>
    (Ok (LayerBlob name (blobs_requested model)),
     {| blobs_requested := S (blobs_requested model) |}).

(** What the layer reads of the record the caller passes as
    [input_record]: asking it for the member [path] of [record[field]]
    answers with the reference to that member, or raises. *)
Definition InputRecord : Type := string -> list string -> option Exception.

(** The attributes the constructor sets.  [model] and [name], stored by
    the base class, are read by this file only to obtain blob
    references. *)
Record t : Type := {
  input_record : InputRecord;
  input_specs : list (string * FeatureSpec);
  output_schema : schema.Field;
  zero : BlobReference;
  zero_range : BlobReference
}.

(** Body of the constructor's first loop: the assertion, then the
    dispatch on the type tag, each branch appending to [outputs]. *)
Definition init_entry (outputs : list (string * schema.Field))
  (entry : string * FeatureSpec) : M Model (list (string * schema.Field)) :=
  let '(field, feature_specs) := entry in
  assert_ (Nat.eqb (length (feature_names feature_specs))
                   (length (feature_ids feature_specs))) ;;;
  if String.eqb (feature_type feature_specs) "FLOAT" then
    output <~ get_next_blob_reference (field ++ "_output") ;;
    ret (outputs ++
         [(field,
           schema.Scalar
             (schema.WithShape schema.float32
                [length (feature_ids feature_specs)])
             output None)])
  else if String.eqb (feature_type feature_specs) "ID_LIST" then
    ranges <~ get_next_blob_reference (field ++ "_ranges") ;;
    values <~ get_next_blob_reference (field ++ "_values") ;;
    struct <~ lift (schema.new_Struct
                      [("ranges",
                        schema.Scalar
                          (schema.WithShape schema.int32
                             [length (feature_ids feature_specs); 2])
                          ranges None);
                       ("values",
                        schema.Scalar (schema.Plain schema.int64)
                          values None)]) ;;
    ret (outputs ++ [(field, struct)])
  else if String.eqb (feature_type feature_specs) "ID_SCORE_LIST" then
    ranges <~ get_next_blob_reference (field ++ "_ranges") ;;
    ids <~ get_next_blob_reference (field ++ "_ids") ;;
    scores <~ get_next_blob_reference (field ++ "_scores") ;;
    struct <~ lift (schema.new_Struct
                      [("ranges",
                        schema.Scalar
                          (schema.WithShape schema.int32
                             [length (feature_ids feature_specs); 2])
                          ranges None);
                       ("ids",
                        schema.Scalar (schema.Plain schema.int64) ids None);
                       ("scores",
                        schema.Scalar (schema.Plain schema.float32)
                          scores None)]) ;;
    ret (outputs ++ [(field, struct)])
  else
    raise (TypeError
             ("Unsupported input type: " ++ feature_type feature_specs)).

(** Body of the constructor's second loop: the metadata of the entry is
    attached to the scalars of [output_schema[field]]. *)
Definition attach_entry (output_schema : schema.Field)
  (entry : string * FeatureSpec) : M Model schema.Field :=
  let '(field, feature_specs) := entry in
  lift (schema.mutate_item
          (schema.attach_metadata_to_scalars
             {| schema.feature_specs := feature_specs |})
          output_schema field).

Definition __init__ (input_record : InputRecord)
  (input_specs : list (string * FeatureSpec)) : M Model t :=
  outputs <~ for_each init_entry [] input_specs ;;
  output_schema <~ lift (schema.new_Struct outputs) ;;
  output_schema <~ for_each attach_entry output_schema input_specs ;;
  ret {| input_record := input_record;
         input_specs := input_specs;
         output_schema := output_schema;
         zero := GlobalConstant "ZERO";
         zero_range := GlobalConstant "ZERO_RANGE" |}.

(** *** add_ops *)

(** An operator as [net.<type>(inputs, outputs, **kwargs)] records it. *)
Record OperatorDef : Type := {
  op_type : string;
  op_input : list BlobReference;
  op_output : list BlobReference;
  op_arg : list (string * list Z)
}.

(** What [add_ops] changes of [net]: the operators added, oldest first,
    and the count of scoped blobs handed out. *)
Record Net : Type := {
  ops : list OperatorDef;
  scoped_requested : nat
}.

(** Modelled from the spec: core.Net is not among the sources.
    [net.NextScopedBlob(prefix)] hands out a new reference. *)
Definition NextScopedBlob (prefix : string) : M Net BlobReference :=
  fun net =>
    (Ok (NetBlob prefix (scoped_requested net)),
     {| ops := ops net; scoped_requested := S (scoped_requested net) |}).

(** Modelled from the spec: [net.<type>(inputs, outputs, **kwargs)]
    appends one operator of that type to the net. *)
Definition add_operator (op : OperatorDef) : M Net unit :=
  fun net =>
    (Ok tt,
     {| ops := ops net ++ [op]; scoped_requested := scoped_requested net |}).

(** The integers an operator argument can hold. *)
Definition int64 (z : Z) : bool :=
  ((- 2 ^ 63 <=? z) && (z <? 2 ^ 63))%Z.

(** Modelled from the spec: the mask is stored in the operator as 64-bit
    integers; an id outside that range makes the call raise ValueError,
    and no operator is added. *)
Definition SparseToDenseMask (inputs outputs : list BlobReference)
  (mask : list Z) : M Net unit :=
  if forallb int64 mask then
    add_operator {| op_type := "SparseToDenseMask"; op_input := inputs;
                    op_output := outputs; op_arg := [("mask", mask)] |}
  else raise (ValueError "Value out of range").

(** Modelled from the spec: [net.LengthsToRanges(input, output)], called
    with one input and one output; answers with the output. *)
Definition LengthsToRanges (input output : BlobReference)
  : M Net BlobReference :=
  add_operator {| op_type := "LengthsToRanges"; op_input := [input];
                  op_output := [output]; op_arg := [] |} ;;;
  ret output.

(** Modelled from the spec: [net.Alias(input, output)]. *)
Definition Alias (input output : BlobReference) : M Net unit :=
  add_operator {| op_type := "Alias"; op_input := [input];
                  op_output := [output]; op_arg := [] |}.

(** [record[field].<path>()] on the input record *)
Definition record_member (self : t) (field : string) (path : list string)
  : Result BlobReference :=
  match input_record self field path with
  | None => Ok (RecordBlob field path)
  | Some e => Raise e
  end.

(** [self.output_schema[field]()] *)
Definition output_blob (self : t) (field : string) : Result BlobReference :=
  match schema.getitem (output_schema self) field with
  | Ok scalar => schema.call scalar
  | Raise e => Raise e
  end.

(** [self.output_schema[field].<member>()] *)
Definition output_member_blob (self : t) (field member : string)
  : Result BlobReference :=
  match schema.getitem (output_schema self) field with
  | Ok struct =>
      match schema.getattr struct member with
      | Ok scalar => schema.call scalar
      | Raise e => Raise e
      end
  | Raise e => Raise e
  end.

(** Body of the loop of [add_ops], the arguments of every call evaluated
    left to right before the call. *)
Definition add_ops_entry (self : t) (_ : unit)
  (entry : string * FeatureSpec) : M Net unit :=
  let '(field, feature_specs) := entry in
  if String.eqb (feature_type feature_specs) "FLOAT" then
    keys <~ lift (record_member self field ["keys"]) ;;
    values <~ lift (record_member self field ["values"]) ;;
    lengths <~ lift (record_member self field ["lengths"]) ;;
    output <~ lift (output_blob self field) ;;
    SparseToDenseMask
      [keys; values; zero self; lengths]
      [output]
      (feature_ids feature_specs)
  else if String.eqb (feature_type feature_specs) "ID_LIST" then
    values_lengths <~ lift (record_member self field ["values"; "lengths"]) ;;
    scoped <~ NextScopedBlob "id_list_ranges" ;;
    id_list_ranges <~ LengthsToRanges values_lengths scoped ;;
    keys <~ lift (record_member self field ["keys"]) ;;
    lengths <~ lift (record_member self field ["lengths"]) ;;
    ranges <~ lift (output_member_blob self field "ranges") ;;
    SparseToDenseMask
      [keys; id_list_ranges; zero_range self; lengths]
      [ranges]
      (feature_ids feature_specs) ;;;
    items <~ lift (record_member self field ["values"; "items"]) ;;
    values <~ lift (output_member_blob self field "values") ;;
    Alias items values
  else if String.eqb (feature_type feature_specs) "ID_SCORE_LIST" then
    values_lengths <~ lift (record_member self field ["values"; "lengths"]) ;;
    scoped <~ NextScopedBlob "id_score_list_ranges" ;;
    id_list_ranges <~ LengthsToRanges values_lengths scoped ;;
    keys <~ lift (record_member self field ["keys"]) ;;
    lengths <~ lift (record_member self field ["lengths"]) ;;
    ranges <~ lift (output_member_blob self field "ranges") ;;
    SparseToDenseMask
      [keys; id_list_ranges; zero_range self; lengths]
      [ranges]
      (feature_ids feature_specs) ;;;
    values_keys <~ lift (record_member self field ["values"; "keys"]) ;;
    ids <~ lift (output_member_blob self field "ids") ;;
    Alias values_keys ids ;;;
    values_values <~ lift (record_member self field ["values"; "values"]) ;;
    scores <~ lift (output_member_blob self field "scores") ;;
    Alias values_values scores
  else
    ret tt.

Definition add_ops (self : t) : M Net unit :=
  for_each (add_ops_entry self) tt (input_specs self).

(** *** get_metadata *)

(** The values the metadata dictionaries hold. *)
Inductive MetaValue : Type :=
| MStr (s : string)
| MNames (names : list string)
| MIds (ids : list Z)
| MInt (n : Z).

(** One element of the list: the dictionary, the blobs, the types. *)
Definition MetadataEntry : Type :=
  gmap string MetaValue * list BlobReference * list schema.DType.

(** [metadata[-1][0][key] = value] *)
Definition set_last_dict (key : string) (value : MetaValue)
  (metadata : list MetadataEntry) : Result (list MetadataEntry) :=
  match metadata with
  | [] => Raise IndexError
  | _ :: _ =>
      Ok (alter (fun '(d, blobs, types) => (<[key := value]> d, blobs, types))
            (length metadata - 1) metadata)
  end.

(** Body of the loop of [get_metadata]. *)
Definition get_metadata_entry (self : t) (metadata : list MetadataEntry)
  (entry : string * FeatureSpec) : Result (list MetadataEntry) :=
  let '(field, feature_specs) := entry in
  match schema.getitem (output_schema self) field with
  | Raise e => Raise e
  | Ok blobs_of =>
      match schema.getitem (output_schema self) field with
      | Raise e => Raise e
      | Ok types_of =>
          let metadata :=
            metadata ++
            [(<["ids" := MIds (feature_ids feature_specs)]>
                (<["names" := MNames (feature_names feature_specs)]>
                   {["type" := MStr (feature_type feature_specs)]}),
              schema.field_blobs blobs_of,
              schema.field_types types_of)] in
          if String.eqb (feature_type feature_specs) "FLOAT" then
            set_last_dict "cardinality" (MInt 1) metadata
          else
            Ok metadata
      end
  end.

Definition get_metadata (self : t) : Result (list MetadataEntry) :=
  for_each_pure (get_metadata_entry self) [] (input_specs self).

End FeatureSparseToDense.

Import FeatureSparseToDense.

(** ** The vocabulary of the statements *)

(** The two conditions the first loop checks on an entry. *)
Definition lengths_agree (spec : FeatureSpec) : Prop :=
  length (feature_names spec) = length (feature_ids spec).

Definition supported_type (ty : string) : Prop :=
  ty = "FLOAT" \/ ty = "ID_LIST" \/ ty = "ID_SCORE_LIST".

#[local] Instance lengths_agree_dec spec : Decision (lengths_agree spec).
Proof. unfold lengths_agree. apply _. Defined.

#[local] Instance supported_type_dec ty : Decision (supported_type ty).
Proof. unfold supported_type. apply _. Defined.

(** What the dispatch declares for an entry, one case per tag. *)
Inductive entry_schema (field : string) (spec : FeatureSpec)
  : schema.Field -> Prop :=
| float_schema k :
    feature_type spec = "FLOAT" ->
    entry_schema field spec
      (schema.Scalar
         (schema.WithShape schema.float32 [length (feature_ids spec)])
         (LayerBlob (field ++ "_output") k) None)
| id_list_schema k1 k2 :
    feature_type spec = "ID_LIST" ->
    entry_schema field spec
      (schema.Struct
         [("ranges",
           schema.Scalar
             (schema.WithShape schema.int32 [length (feature_ids spec); 2])
             (LayerBlob (field ++ "_ranges") k1) None);
          ("values",
           schema.Scalar (schema.Plain schema.int64)
             (LayerBlob (field ++ "_values") k2) None)])
| id_score_list_schema k1 k2 k3 :
    feature_type spec = "ID_SCORE_LIST" ->
    entry_schema field spec
      (schema.Struct
         [("ranges",
           schema.Scalar
             (schema.WithShape schema.int32 [length (feature_ids spec); 2])
             (LayerBlob (field ++ "_ranges") k1) None);
          ("ids",
           schema.Scalar (schema.Plain schema.int64)
             (LayerBlob (field ++ "_ids") k2) None);
          ("scores",
           schema.Scalar (schema.Plain schema.float32)
             (LayerBlob (field ++ "_scores") k3) None)]).

(** The relation between an entry and the output appended for it. *)
Definition output_of (entry : string * FeatureSpec)
  (output : string * schema.Field) : Prop :=
  output.1 = entry.1 /\ entry_schema entry.1 entry.2 output.2.

(** A field of the output schema declares what the dispatch built for the
    entry; the metadata attached afterwards is not part of it. *)
Definition declares (entry : string * FeatureSpec)
  (fld : string * schema.Field) : Prop :=
  fld.1 = entry.1 /\ entry_schema entry.1 entry.2 (schema.declared fld.2).

(** Field names that [schema.Struct] keeps as they are: pairwise
    distinct and without separator. *)
Definition plain_names (specs : list (string * FeatureSpec)) : Prop :=
  NoDup (map fst specs)
  /\ Forall (fun e : string * FeatureSpec =>
               schema.has_separator e.1 = false) specs.

(** Field names that [schema.Struct] accepts and keeps as they are: in
    addition none is empty and none is 'lengths'. *)
Definition accepted_names (specs : list (string * FeatureSpec)) : Prop :=
  plain_names specs
  /\ Forall (fun e : string * FeatureSpec =>
               e.1 <> "" /\ e.1 <> "lengths") specs.

(** The operator types [add_ops] emits for an entry of a given type, in
    the order of the calls. *)
Definition operators_of (ty : string) : list string :=
  if String.eqb ty "FLOAT" then ["SparseToDenseMask"]
  else if String.eqb ty "ID_LIST" then
    ["LengthsToRanges"; "SparseToDenseMask"; "Alias"]
  else if String.eqb ty "ID_SCORE_LIST" then
    ["LengthsToRanges"; "SparseToDenseMask"; "Alias"; "Alias"]
  else [].

(** The operators emitted for one entry: their types, and the mask of
    every SparseToDenseMask among them. *)
Definition entry_ops (spec : FeatureSpec) (emitted : list OperatorDef) : Prop :=
  map op_type emitted = operators_of (feature_type spec)
  /\ forall op, In op emitted ->
       op_type op = "SparseToDenseMask" ->
       op_arg op = [("mask", feature_ids spec)].

(** The dictionary built for an entry. *)
Definition metadata_dict (spec : FeatureSpec) : gmap string MetaValue :=
  let d :=
    <["ids" := MIds (feature_ids spec)]>
      (<["names" := MNames (feature_names spec)]>
         {["type" := MStr (feature_type spec)]}) in
  if String.eqb (feature_type spec) "FLOAT"
  then <["cardinality" := MInt 1]> d
  else d.

(** The element of the list built for an entry. *)
Definition metadata_of (self : t) (entry : string * FeatureSpec)
  (element : MetadataEntry) : Prop :=
  exists f,
    schema.getitem (output_schema self) entry.1 = Ok f
    /\ element = (metadata_dict entry.2,
                  schema.field_blobs f, schema.field_types f).

(** A scalar found along a path in either operand of a merge is found
    along the same path in the result. *)
Definition keeps_scalars (a b c : schema.Field) : Prop :=
  forall path d blob md,
    schema.get_by_path path a = Some (schema.Scalar d blob md)
    \/ schema.get_by_path path b = Some (schema.Scalar d blob md) ->
    schema.get_by_path path c = Some (schema.Scalar d blob md).

(** ** Sample input: one entry of each supported type *)

Definition sample_specs : list (string * FeatureSpec) :=
  [("f", {| feature_type := "FLOAT";
            feature_names := ["a"; "b"]; feature_ids := [1; 2]%Z |});
   ("g", {| feature_type := "ID_LIST";
            feature_names := ["c"]; feature_ids := [7]%Z |});
   ("h", {| feature_type := "ID_SCORE_LIST";
            feature_names := []; feature_ids := [] |})].

Definition new_model : Model := {| blobs_requested := 0 |}.

Definition new_net : Net := {| ops := []; scoped_requested := 0 |}.

(** A record that has every member it is asked for. *)
Definition full_record : InputRecord := fun _ _ => None.

Definition sample_layer : t :=
  Eval vm_compute in
    match __init__ full_record sample_specs new_model with
    | (Ok layer, _) => layer
    | (Raise _, _) =>
        {| input_record := full_record;
           input_specs := []; output_schema := schema.Struct [];
           zero := GlobalConstant ""; zero_range := GlobalConstant "" |}
    end.

Definition sample_metadata : list MetadataEntry :=
  match get_metadata sample_layer with
  | Ok metadata => metadata
  | Raise _ => []
  end.

(** ** Further vocabulary: blobs, metadata and operator wiring *)

(** Modelled from the spec: [field.field_metadata()] of
    caffe2.python.schema, the metadata of the scalars below [field], in
    field order. *)
Fixpoint field_metadata (f : schema.Field) : list (option schema.Metadata) :=
  match f with
  | schema.Scalar _ _ md => [md]
  | schema.Struct fields => flat_map (fun '(_, c) => field_metadata c) fields
  end.

(** The names the first loop passes to [get_next_blob_reference] for an
    entry, in the order of the calls. *)
Definition blob_names (entry : string * FeatureSpec) : list string :=
  let '(field, spec) := entry in
  if String.eqb (feature_type spec) "FLOAT" then
    [String.append field "_output"]
  else if String.eqb (feature_type spec) "ID_LIST" then
    [String.append field "_ranges"; String.append field "_values"]
  else if String.eqb (feature_type spec) "ID_SCORE_LIST" then
    [String.append field "_ranges"; String.append field "_ids";
     String.append field "_scores"]
  else [].

(** The references handed out for a run of requests that starts at
    serial [start]. *)
Fixpoint numbered (start : nat) (names : list string) : list BlobReference :=
  match names with
  | [] => []
  | name :: rest => LayerBlob name start :: numbered (S start) rest
  end.

(** The dtypes the dispatch declares for an entry, in field order. *)
Definition dtypes_of (spec : FeatureSpec) : list schema.DType :=
  if String.eqb (feature_type spec) "FLOAT" then
    [schema.WithShape schema.float32 [length (feature_ids spec)]]
  else if String.eqb (feature_type spec) "ID_LIST" then
    [schema.WithShape schema.int32 [length (feature_ids spec); 2];
     schema.Plain schema.int64]
  else if String.eqb (feature_type spec) "ID_SCORE_LIST" then
    [schema.WithShape schema.int32 [length (feature_ids spec); 2];
     schema.Plain schema.int64; schema.Plain schema.float32]
  else [].

(** The operators that compute ranges, and the blobs the other operators
    of a list write. *)
Definition is_ranges (op : OperatorDef) : bool :=
  String.eqb (op_type op) "LengthsToRanges".

Definition written (emitted : list OperatorDef) : list BlobReference :=
  flat_map op_output (List.filter (fun op => negb (is_ranges op)) emitted).

(** Every LengthsToRanges of a list writes a scoped blob whose serial
    lies in [lo, hi) and is followed at once by a SparseToDenseMask that
    reads that blob as its second input. *)
Definition ranges_feed_mask (lo hi : nat) (emitted : list OperatorDef)
  : Prop :=
  forall j op,
    emitted !! j = Some op ->
    op_type op = "LengthsToRanges" ->
    exists prefix k next,
      lo <= k < hi
      /\ op_output op = [NetBlob prefix k]
      /\ emitted !! (S j) = Some next
      /\ op_type next = "SparseToDenseMask"
      /\ op_input next !! 1 = Some (NetBlob prefix k).

(** The operators of one entry read the members of the input record of
    that entry's field, the range blob and the model's two constants. *)
Definition reads_own_record (field : string) (spec : FeatureSpec)
  (op : OperatorDef) : Prop :=
  (op_type op = "SparseToDenseMask" ->
   exists second,
     op_input op
     = [RecordBlob field ["keys"]; second;
        GlobalConstant (if String.eqb (feature_type spec) "FLOAT"
                        then "ZERO" else "ZERO_RANGE");
        RecordBlob field ["lengths"]]
     /\ (feature_type spec = "FLOAT" -> second = RecordBlob field ["values"])
     /\ (feature_type spec <> "FLOAT" -> exists prefix k,
           second = NetBlob prefix k))
  /\ (op_type op = "LengthsToRanges" ->
      op_input op = [RecordBlob field ["values"; "lengths"]])
  /\ (op_type op = "Alias" ->
      exists member, op_input op = [RecordBlob field ["values"; member]]).

(** The name a layer blob was requested under. *)
Definition requested_name (b : BlobReference) : option string :=
  match b with
  | LayerBlob name _ => Some name
  | _ => None
  end.

(** The operators [add_ops] emits for one entry, given the serial [k] of
    the next scoped blob and the blobs [outs] that the lookups in
    [output_schema] answered with. *)
Inductive entry_group (self : t) (field : string) (spec : FeatureSpec)
  (k : nat) : list BlobReference -> list OperatorDef -> Prop :=
| group_float out :
    feature_type spec = "FLOAT" ->
    output_blob self field = Ok out ->
    forallb int64 (feature_ids spec) = true ->
    entry_group self field spec k [out]
      [{| op_type := "SparseToDenseMask";
          op_input := [RecordBlob field ["keys"]; RecordBlob field ["values"];
                       zero self; RecordBlob field ["lengths"]];
          op_output := [out];
          op_arg := [("mask", feature_ids spec)] |}]
| group_id_list ranges values :
    feature_type spec = "ID_LIST" ->
    output_member_blob self field "ranges" = Ok ranges ->
    output_member_blob self field "values" = Ok values ->
    forallb int64 (feature_ids spec) = true ->
    entry_group self field spec k [ranges; values]
      [{| op_type := "LengthsToRanges";
          op_input := [RecordBlob field ["values"; "lengths"]];
          op_output := [NetBlob "id_list_ranges" k];
          op_arg := [] |};
       {| op_type := "SparseToDenseMask";
          op_input := [RecordBlob field ["keys"]; NetBlob "id_list_ranges" k;
                       zero_range self; RecordBlob field ["lengths"]];
          op_output := [ranges];
          op_arg := [("mask", feature_ids spec)] |};
       {| op_type := "Alias";
          op_input := [RecordBlob field ["values"; "items"]];
          op_output := [values];
          op_arg := [] |}]
| group_id_score_list ranges ids scores :
    feature_type spec = "ID_SCORE_LIST" ->
    output_member_blob self field "ranges" = Ok ranges ->
    output_member_blob self field "ids" = Ok ids ->
    output_member_blob self field "scores" = Ok scores ->
    forallb int64 (feature_ids spec) = true ->
    entry_group self field spec k [ranges; ids; scores]
      [{| op_type := "LengthsToRanges";
          op_input := [RecordBlob field ["values"; "lengths"]];
          op_output := [NetBlob "id_score_list_ranges" k];
          op_arg := [] |};
       {| op_type := "SparseToDenseMask";
          op_input := [RecordBlob field ["keys"];
                       NetBlob "id_score_list_ranges" k;
                       zero_range self; RecordBlob field ["lengths"]];
          op_output := [ranges];
          op_arg := [("mask", feature_ids spec)] |};
       {| op_type := "Alias";
          op_input := [RecordBlob field ["values"; "keys"]];
          op_output := [ids];
          op_arg := [] |};
       {| op_type := "Alias";
          op_input := [RecordBlob field ["values"; "values"]];
          op_output := [scores];
          op_arg := [] |}]
| group_other :
    ~ supported_type (feature_type spec) ->
    entry_group self field spec k [] [].

(** The operators [add_ops] appends to a new net for the sample layer. *)
Definition emitted_sample : list OperatorDef :=
  Eval vm_compute in ops (add_ops sample_layer new_net).2.

(** ** Proof steps *)

Ltac run_entry :=
  cbv [init_entry bind assert_ ret raise lift get_next_blob_reference].

Ltac run_ops :=
  cbv [add_ops_entry bind lift ret raise SparseToDenseMask LengthsToRanges
       Alias NextScopedBlob add_operator ops scoped_requested].

Ltac mask_only :=
  intros op Hin Hop; simpl in Hin;
  repeat (destruct Hin as [<-|Hin]; [first [reflexivity | discriminate Hop]|]);
  contradiction.

(** ** Facts about schema values *)

Lemma Field_induction (P : schema.Field -> Prop) :
  (forall d b md, P (schema.Scalar d b md)) ->
  (forall fields,
      Forall (fun x : string * schema.Field => P x.2) fields ->
      P (schema.Struct fields)) ->
  forall f, P f.
Proof.
  intros HS HT. fix IH 1. intros [d b md | fields].
  - apply HS.
  - apply HT. induction fields as [|[n c] rest IHrest]; constructor.
    + apply IH.
    + exact IHrest.
Qed.

Lemma declared_attach md :
  forall f, schema.declared (schema.attach_metadata_to_scalars md f)
            = schema.declared f.
Proof.
  induction f as [d b m | fields IH] using Field_induction; simpl.
  - reflexivity.
  - f_equal. induction IH as [|[n c] rest Hc _ IHrest]; simpl.
    + reflexivity.
    + simpl in Hc. by rewrite Hc, IHrest.
Qed.

Lemma lookup_field_is_Some name fields :
  is_Some (schema.lookup_field name fields) <-> In name (map fst fields).
Proof.
  induction fields as [|[n f] rest IH]; simpl.
  - split; [intros [? ?]; discriminate | tauto].
  - destruct (String.eqb_spec n name) as [->|Hne].
    + split; [auto | eauto].
    + rewrite IH. split; [auto | intros [?|?]; [contradiction | assumption]].
Qed.

Lemma lookup_field_None name fields :
  schema.lookup_field name fields = None <-> ~ In name (map fst fields).
Proof.
  rewrite <- lookup_field_is_Some.
  destruct (schema.lookup_field name fields) as [f|]; split.
  - discriminate.
  - intros H. exfalso. apply H. by exists f.
  - intros _ [f Hf]. discriminate Hf.
  - reflexivity.
Qed.

Lemma modify_field_names g name fields :
  map fst (schema.modify_field g name fields) = map fst fields.
Proof.
  induction fields as [|[n f] rest IH]; simpl; [reflexivity|].
  destruct (String.eqb n name); simpl; [reflexivity | by rewrite IH].
Qed.

Lemma lookup_modify_eq g name fields f :
  schema.lookup_field name fields = Some f ->
  schema.lookup_field name (schema.modify_field g name fields) = Some (g f).
Proof.
  induction fields as [|[n c] rest IH]; simpl; [discriminate|].
  destruct (String.eqb n name) eqn:Hn; simpl; rewrite Hn.
  - by intros [= ->].
  - exact IH.
Qed.

Lemma lookup_modify_ne g name other fields :
  name <> other ->
  schema.lookup_field other (schema.modify_field g name fields)
  = schema.lookup_field other fields.
Proof.
  intros Hne. induction fields as [|[n c] rest IH]; simpl; [reflexivity|].
  destruct (String.eqb_spec n name) as [->|Hn]; simpl.
  - by rewrite (proj2 (String.eqb_neq _ _) Hne).
  - destruct (String.eqb n other); [reflexivity | exact IH].
Qed.

Lemma lookup_field_app name fields more :
  schema.lookup_field name (fields ++ more)
  = match schema.lookup_field name fields with
    | Some f => Some f
    | None => schema.lookup_field name more
    end.
Proof.
  induction fields as [|[n c] rest IH]; simpl; [reflexivity|].
  destruct (String.eqb n name); [reflexivity | exact IH].
Qed.

Lemma lookup_field_nodup fields :
  NoDup (map fst fields) ->
  forall i name f,
    fields !! i = Some (name, f) -> schema.lookup_field name fields = Some f.
Proof.
  induction fields as [|[n c] rest IH]; intros Hnd i name f Hi.
  - destruct i; discriminate.
  - simpl in Hnd. apply NoDup_cons in Hnd as [Hnotin Hnd].
    destruct i as [|i]; simpl in *.
    + injection Hi as -> ->. by rewrite String.eqb_refl.
    + destruct (String.eqb_spec n name) as [->|Hne].
      * exfalso. apply Hnotin. apply list_elem_of_In.
        apply in_map_iff. exists (name, f). split; [reflexivity|].
        apply list_elem_of_In. eapply list_elem_of_lookup_2. exact Hi.
      * eapply IH; eassumption.
Qed.

Lemma modify_field_declared g name fields :
  (forall f, schema.declared (g f) = schema.declared f) ->
  schema.declared (schema.Struct (schema.modify_field g name fields))
  = schema.declared (schema.Struct fields).
Proof.
  intros Hg. simpl. f_equal.
  induction fields as [|[n f] rest IH]; simpl; [reflexivity|].
  destruct (String.eqb n name); simpl.
  - by rewrite Hg.
  - by rewrite IH.
Qed.

Lemma modify_path_declared g :
  (forall f, schema.declared (g f) = schema.declared f) ->
  forall path f,
    schema.declared (schema.modify_path g path f) = schema.declared f.
Proof.
  intros Hg path. induction path as [|name rest IH]; intros f.
  - apply Hg.
  - destruct f as [d b md | fields]; [reflexivity|].
    cbn [schema.modify_path]. by apply modify_field_declared.
Qed.

Lemma lookup_field_declared name fields :
  schema.lookup_field name
    (map (fun '(n, c) => (n, schema.declared c)) fields)
  = option_map schema.declared (schema.lookup_field name fields).
Proof.
  induction fields as [|[n c] rest IH]; simpl; [reflexivity|].
  destruct (String.eqb n name); [reflexivity | exact IH].
Qed.

Lemma get_by_path_declared path :
  forall f,
    schema.get_by_path path (schema.declared f)
    = option_map schema.declared (schema.get_by_path path f).
Proof.
  induction path as [|name rest IH]; intros f; [reflexivity|].
  destruct f as [d b md | fields]; [reflexivity|].
  cbn [schema.get_by_path schema.declared].
  rewrite lookup_field_declared.
  destruct (schema.lookup_field name fields) as [child|]; simpl;
    [apply IH | reflexivity].
Qed.

Lemma get_by_path_app path more :
  forall f,
    schema.get_by_path (path ++ more) f
    = match schema.get_by_path path f with
      | Some g => schema.get_by_path more g
      | None => None
      end.
Proof.
  induction path as [|name rest IH]; intros f; [reflexivity|].
  destruct f as [d b md | fields]; [reflexivity|].
  cbn [app schema.get_by_path].
  destruct (schema.lookup_field name fields) as [child|];
    [apply IH | reflexivity].
Qed.

(** Lookups answer alike on two schemas that declare the same. *)
Lemma getitem_declared struct struct' name f :
  schema.declared struct' = schema.declared struct ->
  schema.getitem struct name = Ok f ->
  exists f',
    schema.getitem struct' name = Ok f'
    /\ schema.declared f' = schema.declared f.
Proof.
  intros Hdecl Hget. unfold schema.getitem in *.
  destruct struct as [|fields]; [discriminate|].
  destruct struct' as [|fields']; [discriminate|].
  destruct (schema.get_by_path (schema.components name) (schema.Struct fields))
    as [g|] eqn:Hg; [|discriminate].
  injection Hget as ->.
  pose proof (get_by_path_declared (schema.components name)
                (schema.Struct fields')) as H'.
  rewrite Hdecl, get_by_path_declared, Hg in H'. simpl in H'.
  destruct (schema.get_by_path (schema.components name) (schema.Struct fields'))
    as [g'|]; [|discriminate].
  simpl in H'. injection H' as H'. by exists g'.
Qed.

Lemma declared_scalar_inv f d b :
  schema.declared f = schema.Scalar d b None ->
  exists md, f = schema.Scalar d b md.
Proof.
  destruct f as [d' b' md|fields]; simpl; intros H; [|discriminate].
  injection H as -> ->. by exists md.
Qed.

Lemma declared_struct_inv f outputs :
  schema.declared f = schema.Struct outputs ->
  exists fields,
    f = schema.Struct fields
    /\ map (fun '(n, c) => (n, schema.declared c)) fields = outputs.
Proof.
  destruct f as [d b md|fields]; simpl; intros H; [discriminate|].
  injection H as <-. by exists fields.
Qed.

(** *** Names without separator *)

Lemma components_plain name :
  schema.has_separator name = false -> schema.components name = [name].
Proof.
  induction name as [|c rest IH]; simpl; [reflexivity|].
  destruct (Ascii.eqb c schema.FIELD_SEPARATOR); simpl; [discriminate|].
  intros H. by rewrite (IH H).
Qed.

Lemma getitem_plain fields name :
  schema.has_separator name = false ->
  schema.getitem (schema.Struct fields) name
  = match schema.lookup_field name fields with
    | Some f => Ok f
    | None => Raise (KeyError name)
    end.
Proof.
  intros Hp. unfold schema.getitem. rewrite (components_plain _ Hp). simpl.
  by destruct (schema.lookup_field name fields).
Qed.

Lemma mutate_item_plain g fields name f :
  schema.has_separator name = false ->
  schema.lookup_field name fields = Some f ->
  schema.mutate_item g (schema.Struct fields) name
  = Ok (schema.Struct (schema.modify_field g name fields)).
Proof.
  intros Hp Hf. unfold schema.mutate_item.
  rewrite (getitem_plain _ _ Hp), Hf, (components_plain _ Hp).
  reflexivity.
Qed.

Lemma check_names_Ok names :
  schema.check_names names = Ok tt
  <-> Forall (fun name => name <> "" /\ name <> "lengths") names.
Proof.
  unfold schema.check_names.
  destruct (forallb _ names) eqn:Hall.
  - split; [intros _|done].
    apply Forall_forall. intros name Hin.
    rewrite forallb_forall in Hall.
    apply list_elem_of_In, Hall in Hin.
    apply andb_true_iff in Hin as [H1 H2].
    apply negb_true_iff in H1, H2.
    by apply String.eqb_neq in H1, H2.
  - split; [discriminate|]. intros HF. exfalso.
    assert (forallb (fun name => negb (name =? "")%string
                                 && negb (name =? "lengths")%string) names
            = true); [|congruence].
    apply forallb_forall. intros name Hin.
    apply list_elem_of_In in Hin.
    apply (proj1 (Forall_forall _ _) HF) in Hin as [H1 H2].
    apply andb_true_iff. split; apply negb_true_iff;
      by apply String.eqb_neq.
Qed.

(** On names that are distinct and without separator the constructor
    keeps the list it is given. *)
Lemma init_fields_plain fields :
  forall acc,
    NoDup (map fst (acc ++ fields)) ->
    Forall (fun x : string * schema.Field =>
              schema.has_separator x.1 = false) fields ->
    for_each_pure schema.init_field acc fields = Ok (acc ++ fields).
Proof.
  induction fields as [|[name f] fields IH]; intros acc Hnd Hp.
  - by rewrite app_nil_r.
  - apply Forall_cons in Hp as [Hname Hp]. simpl in Hname.
    cbn [for_each_pure schema.init_field]. rewrite Hname.
    unfold schema.insert_field.
    assert (Hfresh : schema.lookup_field name acc = None).
    { apply lookup_field_None. intros Hin.
      rewrite map_app in Hnd. simpl in Hnd.
      apply NoDup_app in Hnd as (_ & Hdisj & _).
      apply (Hdisj name); [by apply list_elem_of_In | left]. }
    rewrite Hfresh.
    rewrite (IH (acc ++ [(name, f)])); [by rewrite <- app_assoc| |exact Hp].
    by rewrite <- app_assoc.
Qed.

Lemma new_Struct_plain fields :
  NoDup (map fst fields) ->
  Forall (fun x : string * schema.Field =>
            schema.has_separator x.1 = false) fields ->
  Forall (fun x : string * schema.Field => x.1 <> "" /\ x.1 <> "lengths")
    fields ->
  schema.new_Struct fields = Ok (schema.Struct fields).
Proof.
  intros Hnd Hp Hv. unfold schema.new_Struct.
  rewrite (proj2 (check_names_Ok _)).
  - by rewrite (init_fields_plain fields []).
  - apply Forall_forall. intros name Hin.
    apply list_elem_of_In, in_map_iff in Hin as ([n f] & <- & Hin).
    by apply (proj1 (Forall_forall _ _) Hv), list_elem_of_In.
Qed.

Lemma new_Struct_plain_inv fields struct :
  NoDup (map fst fields) ->
  Forall (fun x : string * schema.Field =>
            schema.has_separator x.1 = false) fields ->
  schema.new_Struct fields = Ok struct ->
  struct = schema.Struct fields.
Proof.
  intros Hnd Hp. unfold schema.new_Struct.
  destruct (schema.check_names (map fst fields)); [|discriminate].
  rewrite (init_fields_plain fields []); [|exact Hnd|exact Hp].
  simpl. by intros [= <-].
Qed.

Lemma new_Struct_names_checked fields struct :
  schema.new_Struct fields = Ok struct ->
  Forall (fun x : string * schema.Field => x.1 <> "" /\ x.1 <> "lengths")
    fields.
Proof.
  unfold schema.new_Struct.
  destruct (schema.check_names (map fst fields)) as [[]|] eqn:Hc;
    [|discriminate].
  intros _. apply check_names_Ok in Hc.
  apply Forall_forall. intros [n f] Hin.
  apply (proj1 (Forall_forall _ _) Hc). simpl.
  apply list_elem_of_In, in_map_iff. exists (n, f).
  split; [reflexivity | by apply list_elem_of_In].
Qed.

(** *** What the constructor of structs keeps *)

Lemma add_Struct children others :
  schema.add (schema.Struct children) (schema.Struct others)
  = match schema.merge schema.add children others with
    | Ok merged =>
        match schema.check_names (map fst merged) with
        | Ok _ => Ok (schema.Struct merged)
        | Raise e => Raise e
        end
    | Raise e => Raise e
    end.
Proof. reflexivity. Qed.

Lemma get_by_path_cons name path fields :
  schema.get_by_path (name :: path) (schema.Struct fields)
  = match schema.lookup_field name fields with
    | Some child => schema.get_by_path path child
    | None => None
    end.
Proof. reflexivity. Qed.

Lemma merge_keeps_scalars others :
  Forall (fun o : string * schema.Field =>
            forall child merged,
              schema.add child o.2 = Ok merged ->
              keeps_scalars child o.2 merged) others ->
  forall children merged,
    schema.merge schema.add children others = Ok merged ->
    keeps_scalars (schema.Struct children) (schema.Struct others)
      (schema.Struct merged).
Proof.
  induction 1 as [|[name o] rest Ho _ IH]; intros children merged Hm.
  - simpl in Hm. injection Hm as <-.
    intros [|n p] d b md [H|H]; try discriminate H; exact H.
  - simpl in Ho. cbn [schema.merge] in Hm.
    intros [|n p] d b md Hsc; [destruct Hsc as [H|H]; discriminate H|].
    rewrite !get_by_path_cons in Hsc. cbn [schema.lookup_field] in Hsc.
    destruct (schema.lookup_field name children) as [child|] eqn:Hchild.
    + destruct (schema.add child o) as [m|e] eqn:Hadd; [|discriminate].
      apply (IH _ _ Hm). rewrite !get_by_path_cons.
      destruct (String.eqb_spec name n) as [->|Hne].
      * left. rewrite (lookup_modify_eq _ _ _ _ Hchild).
        apply (Ho _ _ Hadd). rewrite Hchild in Hsc. exact Hsc.
      * rewrite (lookup_modify_ne _ _ _ _ Hne). exact Hsc.
    + apply (IH _ _ Hm). rewrite !get_by_path_cons.
      rewrite lookup_field_app. cbn [schema.lookup_field].
      destruct (String.eqb_spec name n) as [->|Hne].
      * left. rewrite Hchild in *. destruct Hsc as [H|H];
          [discriminate H | exact H].
      * destruct (schema.lookup_field n children); [|exact Hsc].
        destruct Hsc as [H|H]; [by left | by right].
Qed.

Lemma add_keeps_scalars b :
  forall a c, schema.add a b = Ok c -> keeps_scalars a b c.
Proof.
  induction b as [d0 b0 md0 | others IH] using Field_induction;
    intros a c Hadd.
  - destruct a; discriminate Hadd.
  - destruct a as [|children]; [discriminate Hadd|].
    rewrite add_Struct in Hadd.
    destruct (schema.merge schema.add children others) as [merged|e] eqn:Hm;
      [|discriminate].
    destruct (schema.check_names (map fst merged)); [|discriminate].
    injection Hadd as <-.
    by apply merge_keeps_scalars.
Qed.

Lemma insert_field_keeps_scalars fields name field fields' :
  schema.insert_field fields name field = Ok fields' ->
  keeps_scalars (schema.Struct fields) (schema.Struct [(name, field)])
    (schema.Struct fields').
Proof.
  unfold schema.insert_field. intros Hins [|n p] d b md Hsc;
    [destruct Hsc as [H|H]; discriminate H|].
  rewrite !get_by_path_cons in *. cbn [schema.lookup_field] in Hsc.
  destruct (schema.lookup_field name fields) as [existing|] eqn:Hex.
  - destruct existing as [|children]; [discriminate|].
    destruct field as [|others]; [discriminate|].
    destruct (schema.add _ _) as [m|e] eqn:Hadd; [|discriminate].
    injection Hins as <-.
    destruct (String.eqb_spec name n) as [->|Hne].
    + rewrite (lookup_modify_eq _ _ _ _ Hex).
      apply (add_keeps_scalars _ _ _ Hadd). by rewrite Hex in Hsc.
    + rewrite (lookup_modify_ne _ _ _ _ Hne).
      destruct Hsc as [H|H]; [exact H | discriminate H].
  - injection Hins as <-. rewrite lookup_field_app.
    cbn [schema.lookup_field].
    destruct (String.eqb_spec name n) as [->|Hne].
    + rewrite Hex in *. destruct Hsc as [H|H]; [discriminate H | exact H].
    + destruct (schema.lookup_field n fields);
        destruct Hsc as [H|H]; try discriminate H; exact H.
Qed.

Lemma create_internal_path names field nested :
  schema.create_internal names field = Ok nested ->
  schema.get_by_path names nested = Some field.
Proof.
  revert nested. induction names as [|name rest IH]; intros nested H.
  - simpl in H. by injection H as <-.
  - cbn [schema.create_internal] in H.
    destruct (schema.create_internal rest field) as [added|e]; [|discriminate].
    unfold schema.single in H.
    destruct (schema.check_names [name]); [|discriminate].
    injection H as <-. rewrite get_by_path_cons. simpl.
    rewrite String.eqb_refl. by apply IH.
Qed.

(** One step of the constructor's loop puts the field at the end of the
    path its name spells. *)
Lemma init_field_path fields name field fields' :
  schema.init_field fields (name, field) = Ok fields' ->
  exists first rest nested,
    schema.components name = first :: rest
    /\ schema.get_by_path rest nested = Some field
    /\ schema.insert_field fields first nested = Ok fields'.
Proof.
  unfold schema.init_field.
  destruct (schema.has_separator name) eqn:Hsep.
  - unfold schema._struct_from_nested_name.
    destruct (schema.components name) as [|first rest] eqn:Hc.
    + destruct name; simpl in Hc; [discriminate|].
      destruct (Ascii.eqb _ _); [discriminate|].
      destruct (schema.components name); discriminate.
    + destruct (schema.create_internal rest field) as [nested|e] eqn:Hn;
        [|discriminate].
      intros H. exists first, rest, nested.
      split; [reflexivity|]. split; [by apply create_internal_path | exact H].
  - intros H. exists name, [], field.
    split; [by apply components_plain|]. split; [reflexivity | exact H].
Qed.

Lemma init_fields_keep_scalars fields :
  forall acc built,
    for_each_pure schema.init_field acc fields = Ok built ->
    (forall path d blob md,
        path <> [] ->
        schema.get_by_path path (schema.Struct acc)
        = Some (schema.Scalar d blob md) ->
        schema.get_by_path path (schema.Struct built)
        = Some (schema.Scalar d blob md))
    /\ (forall name field path d blob md,
          In (name, field) fields ->
          schema.get_by_path path field = Some (schema.Scalar d blob md) ->
          schema.get_by_path (schema.components name ++ path)
            (schema.Struct built)
          = Some (schema.Scalar d blob md)).
Proof.
  induction fields as [|[name field] fields IH]; intros acc built H.
  - simpl in H. injection H as <-. split; [done | intros ? ? ? ? ? ? []].
  - cbn [for_each_pure] in H.
    destruct (schema.init_field acc (name, field)) as [acc'|e] eqn:Hstep;
      [|discriminate].
    destruct (IH _ _ H) as [Hacc Hnew].
    apply init_field_path in Hstep
      as (first & rest & nested & Hc & Hnested & Hins).
    pose proof (insert_field_keeps_scalars _ _ _ _ Hins) as Hkeep.
    split.
    + intros path d b md Hne Hp. apply Hacc; [exact Hne|].
      apply Hkeep. by left.
    + intros name' field' path d b md [Heq|Hin] Hp.
      * injection Heq as <- <-. rewrite Hc.
        apply Hacc; [discriminate|]. apply Hkeep. right.
        cbn [app]. rewrite get_by_path_cons. simpl.
        rewrite String.eqb_refl, get_by_path_app, Hnested. exact Hp.
      * by eapply Hnew.
Qed.

(** A scalar handed to [schema.Struct], directly or inside a struct, is
    found in the struct it returns along the path its name spells. *)
Lemma new_Struct_keeps_scalars fields struct name field path d blob md :
  schema.new_Struct fields = Ok struct ->
  In (name, field) fields ->
  schema.get_by_path path field = Some (schema.Scalar d blob md) ->
  schema.get_by_path (schema.components name ++ path) struct
  = Some (schema.Scalar d blob md).
Proof.
  unfold schema.new_Struct.
  destruct (schema.check_names (map fst fields)); [|discriminate].
  destruct (for_each_pure schema.init_field [] fields) as [built|e] eqn:Hb;
    [|discriminate].
  intros [= <-] Hin Hp.
  by eapply (proj2 (init_fields_keep_scalars _ _ _ Hb)).
Qed.

Lemma new_Struct_is_Struct fields struct :
  schema.new_Struct fields = Ok struct ->
  exists built, struct = schema.Struct built.
Proof.
  unfold schema.new_Struct.
  destruct (schema.check_names (map fst fields)); [|discriminate].
  destruct (for_each_pure schema.init_field [] fields) as [built|e];
    [|discriminate].
  intros [= <-]. by exists built.
Qed.

(** *** The blobs of a merged struct *)

Lemma lookup_field_split name fields child :
  schema.lookup_field name fields = Some child ->
  exists before after,
    fields = before ++ (name, child) :: after
    /\ forall g,
         schema.modify_field g name fields
         = before ++ (name, g child) :: after.
Proof.
  induction fields as [|[n c] rest IH]; simpl; [discriminate|].
  destruct (String.eqb_spec n name) as [->|Hne].
  - intros [= ->]. by exists [], rest.
  - intros H. destruct (IH H) as (before & after & -> & Hmod).
    exists ((n, c) :: before), after. split; [reflexivity|].
    intros g. simpl. by rewrite Hmod.
Qed.

Lemma field_blobs_Struct fields :
  schema.field_blobs (schema.Struct fields)
  = flat_map (fun '(_, c) => schema.field_blobs c) fields.
Proof. reflexivity. Qed.

Lemma field_blobs_modify name fields child merged :
  schema.lookup_field name fields = Some child ->
  forall extra,
    schema.field_blobs merged ≡ₚ schema.field_blobs child ++ extra ->
    schema.field_blobs
      (schema.Struct (schema.modify_field (fun _ => merged) name fields))
    ≡ₚ schema.field_blobs (schema.Struct fields) ++ extra.
Proof.
  intros Hl extra Hm.
  destruct (lookup_field_split _ _ _ Hl) as (before & after & -> & Hmod).
  rewrite Hmod, !field_blobs_Struct, !flat_map_app. simpl.
  rewrite Hm, <- !app_assoc.
  apply Permutation_app_head, Permutation_app_head, Permutation_app_comm.
Qed.

Lemma merge_blobs others :
  Forall (fun o : string * schema.Field =>
            forall child merged,
              schema.add child o.2 = Ok merged ->
              schema.field_blobs merged
              ≡ₚ schema.field_blobs child ++ schema.field_blobs o.2) others ->
  forall children merged,
    schema.merge schema.add children others = Ok merged ->
    schema.field_blobs (schema.Struct merged)
    ≡ₚ schema.field_blobs (schema.Struct children)
       ++ schema.field_blobs (schema.Struct others).
Proof.
  induction 1 as [|[name o] rest Ho _ IH]; intros children merged Hm.
  - simpl in Hm. injection Hm as <-. by rewrite app_nil_r.
  - simpl in Ho. cbn [schema.merge] in Hm.
    destruct (schema.lookup_field name children) as [child|] eqn:Hchild.
    + destruct (schema.add child o) as [m|e] eqn:Hadd; [|discriminate].
      rewrite (IH _ _ Hm).
      rewrite (field_blobs_modify _ _ _ _ Hchild _ (Ho _ _ Hadd)).
      rewrite (field_blobs_Struct ((name, o) :: rest)). simpl.
      by rewrite <- app_assoc.
    + rewrite (IH _ _ Hm).
      rewrite (field_blobs_Struct (children ++ _)), flat_map_app.
      rewrite (field_blobs_Struct ((name, o) :: rest)). simpl.
      by rewrite app_nil_r, <- app_assoc.
Qed.

Lemma add_blobs b :
  forall a c,
    schema.add a b = Ok c ->
    schema.field_blobs c ≡ₚ schema.field_blobs a ++ schema.field_blobs b.
Proof.
  induction b as [d0 b0 md0 | others IH] using Field_induction;
    intros a c Hadd.
  - destruct a; discriminate Hadd.
  - destruct a as [|children]; [discriminate Hadd|].
    rewrite add_Struct in Hadd.
    destruct (schema.merge schema.add children others) as [merged|e] eqn:Hm;
      [|discriminate].
    destruct (schema.check_names (map fst merged)); [|discriminate].
    injection Hadd as <-.
    by apply merge_blobs.
Qed.

Lemma insert_field_blobs fields name field fields' :
  schema.insert_field fields name field = Ok fields' ->
  schema.field_blobs (schema.Struct fields')
  ≡ₚ schema.field_blobs (schema.Struct fields) ++ schema.field_blobs field.
Proof.
  unfold schema.insert_field.
  destruct (schema.lookup_field name fields) as [existing|] eqn:Hex.
  - destruct existing as [|children]; [discriminate|].
    destruct field as [|others]; [discriminate|].
    destruct (schema.add _ _) as [m|e] eqn:Hadd; [|discriminate].
    intros [= <-].
    apply (field_blobs_modify _ _ _ _ Hex). by apply add_blobs.
  - intros [= <-]. rewrite !field_blobs_Struct, flat_map_app. simpl.
    by rewrite app_nil_r.
Qed.

Lemma create_internal_blobs names field nested :
  schema.create_internal names field = Ok nested ->
  schema.field_blobs nested = schema.field_blobs field.
Proof.
  revert nested. induction names as [|name rest IH]; intros nested H.
  - simpl in H. by injection H as <-.
  - cbn [schema.create_internal] in H.
    destruct (schema.create_internal rest field) as [added|e]; [|discriminate].
    unfold schema.single in H.
    destruct (schema.check_names [name]); [|discriminate].
    injection H as <-. simpl. rewrite app_nil_r. by apply IH.
Qed.

Lemma init_field_blobs fields name field fields' :
  schema.init_field fields (name, field) = Ok fields' ->
  schema.field_blobs (schema.Struct fields')
  ≡ₚ schema.field_blobs (schema.Struct fields) ++ schema.field_blobs field.
Proof.
  unfold schema.init_field.
  destruct (schema.has_separator name).
  - unfold schema._struct_from_nested_name.
    destruct (schema.components name) as [|first rest].
    + apply insert_field_blobs.
    + destruct (schema.create_internal rest field) as [nested|e] eqn:Hn;
        [|discriminate].
      intros H. rewrite (insert_field_blobs _ _ _ _ H).
      by rewrite (create_internal_blobs _ _ _ Hn).
  - apply insert_field_blobs.
Qed.

(** The struct that [schema.Struct] returns has the blobs of the fields
    it was given, each once, possibly in another order. *)
Lemma new_Struct_blobs fields struct :
  schema.new_Struct fields = Ok struct ->
  schema.field_blobs struct
  ≡ₚ flat_map (fun '(_, c) => schema.field_blobs c) fields.
Proof.
  unfold schema.new_Struct.
  destruct (schema.check_names (map fst fields)); [|discriminate].
  destruct (for_each_pure schema.init_field [] fields) as [built|e] eqn:Hb;
    [|discriminate].
  intros [= <-].
  assert (Hgen : forall fields acc built,
            for_each_pure schema.init_field acc fields = Ok built ->
            schema.field_blobs (schema.Struct built)
            ≡ₚ schema.field_blobs (schema.Struct acc)
               ++ flat_map (fun '(_, c) => schema.field_blobs c) fields).
  { clear. induction fields as [|[name field] fields IH]; intros acc built H.
    - simpl in H. injection H as <-. by rewrite app_nil_r.
    - cbn [for_each_pure] in H.
      destruct (schema.init_field acc (name, field)) as [acc'|e] eqn:Hstep;
        [|discriminate].
      rewrite (IH _ _ H), (init_field_blobs _ _ _ _ Hstep). simpl.
      by rewrite <- app_assoc. }
  by rewrite (Hgen _ _ _ Hb).
Qed.

(** ** The constructor, entry by entry *)

Lemma entry_schema_declared field spec f :
  entry_schema field spec f -> schema.declared f = f.
Proof. destruct 1; reflexivity. Qed.

Lemma new_Struct_ranges_values ranges values :
  schema.new_Struct [("ranges", ranges); ("values", values)]
  = Ok (schema.Struct [("ranges", ranges); ("values", values)]).
Proof. reflexivity. Qed.

Lemma new_Struct_ranges_ids_scores ranges ids scores :
  schema.new_Struct [("ranges", ranges); ("ids", ids); ("scores", scores)]
  = Ok (schema.Struct [("ranges", ranges); ("ids", ids); ("scores", scores)]).
Proof. reflexivity. Qed.

Lemma init_entry_assertion outputs field spec model :
  ~ lengths_agree spec ->
  init_entry outputs (field, spec) model = (Raise AssertionError, model).
Proof.
  intros Hlen. run_entry.
  destruct (Nat.eqb_spec (length (feature_names spec))
              (length (feature_ids spec))) as [Heq|_]; [|reflexivity].
  contradiction.
Qed.

Lemma init_entry_unsupported outputs field spec model :
  lengths_agree spec ->
  ~ supported_type (feature_type spec) ->
  init_entry outputs (field, spec) model =
  (Raise (TypeError ("Unsupported input type: " ++ feature_type spec)), model).
Proof.
  intros Hlen Hty. run_entry.
  rewrite (proj2 (Nat.eqb_eq _ _) Hlen).
  unfold supported_type in Hty.
  destruct (String.eqb_spec (feature_type spec) "FLOAT"); [tauto|].
  destruct (String.eqb_spec (feature_type spec) "ID_LIST"); [tauto|].
  destruct (String.eqb_spec (feature_type spec) "ID_SCORE_LIST"); [tauto|].
  reflexivity.
Qed.

Lemma init_entry_supported outputs field spec model :
  lengths_agree spec ->
  supported_type (feature_type spec) ->
  exists f model',
    init_entry outputs (field, spec) model
    = (Ok (outputs ++ [(field, f)]), model')
    /\ entry_schema field spec f.
Proof.
  intros Hlen Hty. run_entry.
  rewrite (proj2 (Nat.eqb_eq _ _) Hlen).
  destruct (String.eqb_spec (feature_type spec) "FLOAT") as [HF|HF].
  { eexists _, _. split; [reflexivity|]. by apply float_schema. }
  destruct (String.eqb_spec (feature_type spec) "ID_LIST") as [HL|HL].
  { rewrite new_Struct_ranges_values.
    eexists _, _. split; [reflexivity|]. by apply id_list_schema. }
  destruct (String.eqb_spec (feature_type spec) "ID_SCORE_LIST") as [HS|HS].
  { rewrite new_Struct_ranges_ids_scores.
    eexists _, _. split; [reflexivity|]. by apply id_score_list_schema. }
  unfold supported_type in Hty. tauto.
Qed.

Lemma init_loop_ok specs :
  forall acc model outputs model',
    for_each init_entry acc specs model = (Ok outputs, model') ->
    Forall (fun e => lengths_agree e.2 /\ supported_type (feature_type e.2))
      specs
    /\ exists news, outputs = acc ++ news /\ Forall2 output_of specs news.
Proof.
  induction specs as [|[field spec] specs IH]; intros acc model outputs model' H.
  - simpl in H. injection H as <- <-. split; [constructor|].
    exists []. by rewrite app_nil_r.
  - cbn [for_each] in H. unfold bind in H.
    destruct (decide (lengths_agree spec)) as [Hlen|Hlen];
      [|by rewrite init_entry_assertion in H].
    destruct (decide (supported_type (feature_type spec))) as [Hty|Hty];
      [|by rewrite init_entry_unsupported in H].
    destruct (init_entry_supported acc field spec model Hlen Hty)
      as (f & model1 & Hrun & Hf).
    rewrite Hrun in H. apply IH in H as (Hall & news & -> & Hnews).
    split; [by constructor|].
    exists ((field, f) :: news). split; [by rewrite <- app_assoc|].
    constructor; [by split | assumption].
Qed.

Lemma init_loop_total specs :
  Forall (fun e => lengths_agree e.2 /\ supported_type (feature_type e.2))
    specs ->
  forall acc model,
    exists outputs model',
      for_each init_entry acc specs model = (Ok outputs, model').
Proof.
  induction 1 as [|[field spec] specs [Hlen Hty] _ IH]; intros acc model.
  - by eexists _, _.
  - cbn [for_each]. unfold bind.
    destruct (init_entry_supported acc field spec model Hlen Hty)
      as (f & model1 & -> & _).
    apply IH.
Qed.

Lemma numbered_app start names1 names2 :
  numbered start (names1 ++ names2)
  = numbered start names1 ++ numbered (start + length names1) names2.
Proof.
  revert start. induction names1 as [|n names1 IH]; intros start; simpl.
  - by rewrite Nat.add_0_r.
  - rewrite IH. do 3 f_equal. lia.
Qed.

Lemma numbered_serial start names name k :
  In (LayerBlob name k) (numbered start names) -> start <= k.
Proof.
  revert start. induction names as [|n names IH]; intros start; simpl.
  - contradiction.
  - intros [H|H]; [injection H as _ <-; lia|].
    apply IH in H. lia.
Qed.

Lemma numbered_NoDup start names : NoDup (numbered start names).
Proof.
  revert start. induction names as [|n names IH]; intros start; simpl.
  - apply NoDup_nil. exact I.
  - apply NoDup_cons. split; [|apply IH].
    rewrite list_elem_of_In. intros H. apply numbered_serial in H. lia.
Qed.

Lemma model_eq (m : Model) n :
  blobs_requested m = n -> m = {| blobs_requested := n |}.
Proof. destruct m. simpl. by intros ->. Qed.

(** One pass of the loop body on an entry that passes both checks: the
    field appended, the references it holds and the requests made. *)
Lemma init_entry_exact outputs field spec model :
  lengths_agree spec ->
  supported_type (feature_type spec) ->
  exists f,
    init_entry outputs (field, spec) model
    = (Ok (outputs ++ [(field, f)]),
       {| blobs_requested :=
            blobs_requested model + length (blob_names (field, spec)) |})
    /\ entry_schema field spec f
    /\ schema.field_blobs f
       = numbered (blobs_requested model) (blob_names (field, spec)).
Proof.
  intros Hlen Hty. run_entry. unfold blob_names.
  rewrite (proj2 (Nat.eqb_eq _ _) Hlen).
  destruct (String.eqb_spec (feature_type spec) "FLOAT") as [HF|HF].
  { eexists. split;
      [simpl; f_equal; try reflexivity; f_equal; lia|].
    split; [by apply float_schema | reflexivity]. }
  destruct (String.eqb_spec (feature_type spec) "ID_LIST") as [HL|HL].
  { rewrite new_Struct_ranges_values. eexists. split;
      [simpl; f_equal; try reflexivity; f_equal; lia|].
    split; [by apply id_list_schema | reflexivity]. }
  destruct (String.eqb_spec (feature_type spec) "ID_SCORE_LIST") as [HS|HS].
  { rewrite new_Struct_ranges_ids_scores. eexists. split;
      [simpl; f_equal; try reflexivity; f_equal; lia|].
    split; [by apply id_score_list_schema | reflexivity]. }
  unfold supported_type in Hty. tauto.
Qed.

Lemma init_loop_exact specs :
  Forall (fun e => lengths_agree e.2 /\ supported_type (feature_type e.2))
    specs ->
  forall acc model,
    exists news,
      for_each init_entry acc specs model
      = (Ok (acc ++ news),
         {| blobs_requested :=
              blobs_requested model + length (flat_map blob_names specs) |})
      /\ Forall2 output_of specs news
      /\ Forall2 (fun e o =>
                    exists k, schema.field_blobs o.2 = numbered k (blob_names e))
           specs news
      /\ flat_map (fun '(_, c) => schema.field_blobs c) news
         = numbered (blobs_requested model) (flat_map blob_names specs).
Proof.
  induction 1 as [|[field spec] specs [Hlen Hty] _ IH]; intros acc model.
  - exists []. rewrite app_nil_r. simpl. split; [|done].
    unfold ret. f_equal. apply model_eq. lia.
  - cbn [for_each]. unfold bind.
    destruct (init_entry_exact acc field spec model Hlen Hty)
      as (f & -> & Hs & Hf).
    destruct (IH (acc ++ [(field, f)])
                {| blobs_requested :=
                     blobs_requested model
                     + length (blob_names (field, spec)) |})
      as (news & -> & Hout & Hnum & Hblobs).
    exists ((field, f) :: news). split; [|split; [|split]].
    + rewrite <- app_assoc. simpl. do 2 f_equal.
      rewrite length_app. lia.
    + constructor; [by split | exact Hout].
    + constructor; [by eexists | exact Hnum].
    + simpl in *. by rewrite Hf, Hblobs, numbered_app.
Qed.

Lemma output_of_names specs news :
  Forall2 output_of specs news -> map fst news = map fst specs.
Proof.
  induction 1 as [|e o specs news [Hn _] _ IH]; simpl; [reflexivity|].
  by rewrite Hn, IH.
Qed.

Lemma outputs_cover specs news :
  Forall2 output_of specs news ->
  Forall (fun e : string * FeatureSpec => In e.1 (map fst news)) specs.
Proof.
  induction 1 as [|e o specs news [Hn _] _ IH]; constructor.
  - simpl. by left.
  - eapply Forall_impl; [exact IH|]. intros e' He'. simpl. by right.
Qed.

Lemma init_loop_unsupported specs :
  Forall (fun e : string * FeatureSpec => lengths_agree e.2) specs ->
  Exists (fun e : string * FeatureSpec => ~ supported_type (feature_type e.2))
    specs ->
  forall acc model,
    exists ty model',
      ~ supported_type ty
      /\ for_each init_entry acc specs model
         = (Raise (TypeError ("Unsupported input type: " ++ ty)), model').
Proof.
  induction 1 as [|[field spec] specs Hlen _ IH]; intros Hex acc model.
  - inversion Hex.
  - simpl in Hlen. cbn [for_each]. unfold bind.
    destruct (decide (supported_type (feature_type spec))) as [Hty|Hty].
    + destruct (init_entry_supported acc field spec model Hlen Hty)
        as (f & model1 & -> & _).
      apply IH. inversion Hex; subst; [contradiction | assumption].
    + rewrite (init_entry_unsupported acc field spec model Hlen Hty).
      by eexists _, _.
Qed.

Lemma init_loop_assertion pre field spec post :
  Forall (fun e : string * FeatureSpec => supported_type (feature_type e.2))
    pre ->
  ~ lengths_agree spec ->
  forall acc model,
    exists model',
      for_each init_entry acc (pre ++ (field, spec) :: post) model
      = (Raise AssertionError, model').
Proof.
  intros Hpre Hbad.
  induction Hpre as [|[field0 spec0] pre Hty _ IH]; intros acc model.
  - cbn [app for_each]. unfold bind.
    rewrite (init_entry_assertion acc field spec model Hbad). by eexists.
  - simpl in Hty. cbn [app for_each]. unfold bind.
    destruct (decide (lengths_agree spec0)) as [Hlen|Hlen].
    + destruct (init_entry_supported acc field0 spec0 model Hlen Hty)
        as (f & model1 & -> & _).
      apply IH.
    + rewrite (init_entry_assertion acc field0 spec0 model Hlen). by eexists.
Qed.


(** ** The constructor as a whole *)

Lemma attach_entry_run struct field spec model :
  attach_entry struct (field, spec) model
  = (schema.mutate_item
       (schema.attach_metadata_to_scalars {| schema.feature_specs := spec |})
       struct field,
     model).
Proof. reflexivity. Qed.

Lemma mutate_item_Ok g struct name struct' :
  schema.mutate_item g struct name = Ok struct' ->
  (exists f, schema.getitem struct name = Ok f)
  /\ struct' = schema.modify_path g (schema.components name) struct.
Proof.
  unfold schema.mutate_item.
  destruct (schema.getitem struct name) as [f|e]; [|discriminate].
  intros [= <-]. split; [by exists f | reflexivity].
Qed.

(** The second loop, whenever it completes: the model is left alone,
    nothing that was declared changes, and every field it looked up can
    be looked up afterwards. *)
Lemma attach_loop_general specs :
  forall struct model struct' model',
    for_each attach_entry struct specs model = (Ok struct', model') ->
    model' = model
    /\ schema.declared struct' = schema.declared struct
    /\ Forall (fun e : string * FeatureSpec =>
                 exists f, schema.getitem struct' e.1 = Ok f) specs.
Proof.
  induction specs as [|[field spec] specs IH];
    intros struct model struct' model' H.
  - simpl in H. injection H as <- <-. by repeat split.
  - cbn [for_each] in H. unfold bind in H.
    rewrite attach_entry_run in H.
    destruct (schema.mutate_item _ struct field) as [struct1|e] eqn:Hmut;
      [|discriminate].
    apply mutate_item_Ok in Hmut as [[f Hget] ->].
    apply IH in H as (-> & Hdecl & Hall).
    rewrite (modify_path_declared _ (declared_attach _)) in Hdecl.
    split; [reflexivity|]. split; [exact Hdecl|].
    constructor; [|exact Hall]. simpl.
    destruct (getitem_declared _ _ _ _ Hdecl Hget) as (f' & Hf' & _).
    by exists f'.
Qed.

Lemma attach_loop_total specs :
  forall struct model,
    Forall (fun e : string * FeatureSpec =>
              exists f, schema.getitem struct e.1 = Ok f) specs ->
    exists struct',
      for_each attach_entry struct specs model = (Ok struct', model).
Proof.
  induction specs as [|[field spec] specs IH]; intros struct model Hall.
  - by exists struct.
  - apply Forall_cons in Hall as [[f Hget] Hall]. simpl in Hget.
    cbn [for_each]. unfold bind. rewrite attach_entry_run.
    unfold schema.mutate_item. rewrite Hget.
    apply IH. eapply Forall_impl; [exact Hall|].
    intros e [f' Hf']. simpl in *.
    assert (Hdecl : schema.declared
                      (schema.modify_path
                         (schema.attach_metadata_to_scalars
                            {| schema.feature_specs := spec |})
                         (schema.components field) struct)
                    = schema.declared struct).
    { apply modify_path_declared, declared_attach. }
    destruct (getitem_declared _ _ _ _ Hdecl Hf') as (f'' & Hf'' & _).
    by exists f''.
Qed.

Lemma init_raise record specs model e model' :
  for_each init_entry [] specs model = (Raise e, model') ->
  __init__ record specs model = (Raise e, model').
Proof. intros H. unfold __init__, bind. by rewrite H. Qed.

(** A run of the constructor that returns, taken apart: the first loop,
    the call of [schema.Struct], the second loop and the attributes. *)
Lemma init_run record specs model layer model' :
  __init__ record specs model = (Ok layer, model') ->
  exists outputs struct struct',
    for_each init_entry [] specs model = (Ok outputs, model')
    /\ schema.new_Struct outputs = Ok struct
    /\ for_each attach_entry struct specs model' = (Ok struct', model')
    /\ layer = {| input_record := record;
                  input_specs := specs;
                  output_schema := struct';
                  zero := GlobalConstant "ZERO";
                  zero_range := GlobalConstant "ZERO_RANGE" |}.
Proof.
  intros H. unfold __init__ in H. unfold bind at 1 in H.
  destruct (for_each init_entry [] specs model) as [[outputs|e] model1] eqn:Hloop;
    [|discriminate].
  unfold bind at 1 in H. unfold lift at 1 in H.
  destruct (schema.new_Struct outputs) as [struct|e] eqn:Hstruct;
    [|discriminate].
  unfold bind in H.
  destruct (for_each attach_entry struct specs model1)
    as [[struct'|e] model2] eqn:Hattach; [|discriminate].
  unfold ret in H. injection H as <- <-.
  pose proof (attach_loop_general _ _ _ _ _ Hattach) as (-> & _ & _).
  by exists outputs, struct, struct'.
Qed.

Lemma init_ok record specs model layer model' :
  __init__ record specs model = (Ok layer, model') ->
  input_specs layer = specs
  /\ Forall (fun e => lengths_agree e.2 /\ supported_type (feature_type e.2))
       specs
  /\ Forall (fun e : string * FeatureSpec =>
               exists f, schema.getitem (output_schema layer) e.1 = Ok f)
       specs.
Proof.
  intros H.
  apply init_run in H as (outputs & struct & struct' & Hloop & _ & Hattach & ->).
  apply init_loop_ok in Hloop as (Hall & _).
  apply attach_loop_general in Hattach as (_ & _ & Hget).
  by repeat split.
Qed.

Lemma declared_fields_inv fields outputs :
  map (fun '(n, c) => (n, schema.declared c)) fields = outputs ->
  forall specs, Forall2 output_of specs outputs -> Forall2 declares specs fields.
Proof.
  intros <- specs. revert specs.
  induction fields as [|[n c] fields IH]; intros specs H; simpl in H.
  - inversion H. constructor.
  - inversion H as [|e o specs' outs' [Hn Hs] Hrest]; subst.
    constructor; [by split | by apply IH].
Qed.

Lemma outputs_declared specs outputs :
  Forall2 output_of specs outputs ->
  schema.declared (schema.Struct outputs) = schema.Struct outputs.
Proof.
  intros H. simpl. f_equal.
  induction H as [|[field spec] [n f] specs news [_ Hs] _ IH];
    simpl; [reflexivity|].
  simpl in Hs. by rewrite (entry_schema_declared _ _ _ Hs), IH.
Qed.

(** On field names that are distinct and without separator the output
    schema has one field per entry, in the order of the entries. *)
Lemma init_flat record specs model layer model' :
  __init__ record specs model = (Ok layer, model') ->
  plain_names specs ->
  exists fields,
    output_schema layer = schema.Struct fields
    /\ Forall2 declares specs fields.
Proof.
  intros H [Hnd Hplain].
  apply init_run in H as (outputs & struct & struct' & Hloop & Hstruct
                          & Hattach & ->).
  apply init_loop_ok in Hloop as (_ & news & Heq & Hnews).
  simpl in Heq. subst outputs.
  apply new_Struct_plain_inv in Hstruct.
  - subst struct.
    apply attach_loop_general in Hattach as (_ & Hdecl & _).
    rewrite (outputs_declared _ _ Hnews) in Hdecl.
    apply declared_struct_inv in Hdecl as (fields & -> & Hfields).
    exists fields. split; [reflexivity|].
    by apply (declared_fields_inv fields news).
  - by rewrite (output_of_names _ _ Hnews).
  - clear -Hnews Hplain.
    induction Hnews as [|e o specs news [Hn _] _ IH]; [constructor|].
    apply Forall_cons in Hplain as [Hp Hplain].
    constructor; [by rewrite Hn | by apply IH].
Qed.

Lemma init_total record specs model :
  Forall (fun e => lengths_agree e.2 /\ supported_type (feature_type e.2))
    specs ->
  accepted_names specs ->
  exists layer model', __init__ record specs model = (Ok layer, model').
Proof.
  intros Hall [[Hnd Hplain] Hvalid].
  destruct (init_loop_total specs Hall [] model) as (outputs & model1 & Hloop).
  pose proof Hloop as Hok.
  apply init_loop_ok in Hok as (_ & news & -> & Hnews). simpl in Hloop.
  assert (Hstruct : schema.new_Struct news = Ok (schema.Struct news)).
  { apply new_Struct_plain.
    - by rewrite (output_of_names _ _ Hnews).
    - clear -Hnews Hplain.
      induction Hnews as [|e o specs news [Hn _] _ IH]; [constructor|].
      apply Forall_cons in Hplain as [Hp Hplain].
      constructor; [by rewrite Hn | by apply IH].
    - clear -Hnews Hvalid.
      induction Hnews as [|e o specs news [Hn _] _ IH]; [constructor|].
      apply Forall_cons in Hvalid as [Hv Hvalid].
      constructor; [by rewrite Hn | by apply IH]. }
  destruct (attach_loop_total specs (schema.Struct news) model1)
    as (struct' & Hattach).
  { apply Forall_forall. intros [field spec] Hin. cbn [fst].
    rewrite getitem_plain.
    - assert (Hname : In field (map fst news)).
      { rewrite (output_of_names _ _ Hnews). apply in_map_iff.
        exists (field, spec). split; [reflexivity|].
        by apply list_elem_of_In. }
      apply lookup_field_is_Some in Hname as [f ->]. by exists f.
    - by apply (proj1 (Forall_forall _ _) Hplain (field, spec)). }
  unfold __init__. unfold bind at 1. rewrite Hloop.
  unfold bind at 1. unfold lift at 1. rewrite Hstruct.
  unfold bind. rewrite Hattach. by eexists _, _.
Qed.

Lemma declares_names specs fields :
  Forall2 declares specs fields -> map fst fields = map fst specs.
Proof.
  induction 1 as [|e fld specs fields [Hn _] _ IH]; simpl; [reflexivity|].
  by rewrite Hn, IH.
Qed.

(** The field built for the [i]-th entry when the field names are
    distinct and without separator: at position [i], and under its
    name. *)
Lemma init_field_plain record specs model layer model' i field spec :
  __init__ record specs model = (Ok layer, model') ->
  plain_names specs ->
  specs !! i = Some (field, spec) ->
  exists f,
    schema.fields_of (output_schema layer) !! i = Some (field, f)
    /\ entry_schema field spec (schema.declared f)
    /\ schema.getitem (output_schema layer) field = Ok f.
Proof.
  intros Hinit Hplain Hi.
  destruct (init_flat _ _ _ _ _ Hinit Hplain) as (fields & Hschema & Hdecl).
  destruct Hplain as [Hnd Hplain].
  destruct (Forall2_lookup_l _ _ _ _ _ Hdecl Hi) as ([n f] & Hi' & Hn & Hs).
  simpl in Hn, Hs. subst n. exists f. rewrite Hschema.
  cbn [schema.fields_of].
  split; [assumption|]. split; [assumption|].
  rewrite <- (declares_names _ _ Hdecl) in Hnd.
  rewrite getitem_plain.
  - by rewrite (lookup_field_nodup fields Hnd i field f Hi').
  - apply (proj1 (Forall_forall _ _) Hplain (field, spec)).
    by eapply list_elem_of_lookup_2.
Qed.

(** The three shapes a field of the output schema can have. *)
Lemma float_field_inv field spec f :
  feature_type spec = "FLOAT" ->
  entry_schema field spec (schema.declared f) ->
  exists k md,
    f = schema.Scalar
          (schema.WithShape schema.float32 [length (feature_ids spec)])
          (LayerBlob (field ++ "_output") k) md.
Proof.
  intros Hty Hs.
  inversion Hs as [k Ht Hd | k1 k2 Ht Hd | k1 k2 k3 Ht Hd];
    [|congruence|congruence].
  symmetry in Hd. apply declared_scalar_inv in Hd as [md ->].
  by exists k, md.
Qed.

Lemma id_list_field_inv field spec f :
  feature_type spec = "ID_LIST" ->
  entry_schema field spec (schema.declared f) ->
  exists k1 md1 k2 md2,
    f = schema.Struct
          [("ranges",
            schema.Scalar
              (schema.WithShape schema.int32 [length (feature_ids spec); 2])
              (LayerBlob (field ++ "_ranges") k1) md1);
           ("values",
            schema.Scalar (schema.Plain schema.int64)
              (LayerBlob (field ++ "_values") k2) md2)].
Proof.
  intros Hty Hs.
  inversion Hs as [k Ht Hd | k1 k2 Ht Hd | k1 k2 k3 Ht Hd];
    [congruence| |congruence].
  symmetry in Hd. apply declared_struct_inv in Hd as (fields & -> & Hd).
  destruct fields as [|[n1 c1] [|[n2 c2] [|? ?]]]; try discriminate Hd.
  simpl in Hd. injection Hd as -> Hc1 -> Hc2.
  apply declared_scalar_inv in Hc1 as [md1 ->].
  apply declared_scalar_inv in Hc2 as [md2 ->].
  by exists k1, md1, k2, md2.
Qed.

Lemma id_score_list_field_inv field spec f :
  feature_type spec = "ID_SCORE_LIST" ->
  entry_schema field spec (schema.declared f) ->
  exists k1 md1 k2 md2 k3 md3,
    f = schema.Struct
          [("ranges",
            schema.Scalar
              (schema.WithShape schema.int32 [length (feature_ids spec); 2])
              (LayerBlob (field ++ "_ranges") k1) md1);
           ("ids",
            schema.Scalar (schema.Plain schema.int64)
              (LayerBlob (field ++ "_ids") k2) md2);
           ("scores",
            schema.Scalar (schema.Plain schema.float32)
              (LayerBlob (field ++ "_scores") k3) md3)].
Proof.
  intros Hty Hs.
  inversion Hs as [k Ht Hd | k1 k2 Ht Hd | k1 k2 k3 Ht Hd];
    [congruence|congruence|].
  symmetry in Hd. apply declared_struct_inv in Hd as (fields & -> & Hd).
  destruct fields as [|[n1 c1] [|[n2 c2] [|[n3 c3] [|? ?]]]];
    try discriminate Hd.
  simpl in Hd. injection Hd as -> Hc1 -> Hc2 -> Hc3.
  apply declared_scalar_inv in Hc1 as [md1 ->].
  apply declared_scalar_inv in Hc2 as [md2 ->].
  apply declared_scalar_inv in Hc3 as [md3 ->].
  by exists k1, md1, k2, md2, k3, md3.
Qed.

(** *** Lookups by name, whatever the field names *)

Lemma get_by_path_declared_scalar struct struct' path d blob md0 :
  schema.declared struct' = schema.declared struct ->
  schema.get_by_path path struct = Some (schema.Scalar d blob md0) ->
  exists md, schema.get_by_path path struct' = Some (schema.Scalar d blob md).
Proof.
  intros Hdecl Hp.
  pose proof (get_by_path_declared path struct') as H'.
  rewrite Hdecl, get_by_path_declared, Hp in H'. simpl in H'.
  destruct (schema.get_by_path path struct') as [x|]; [|discriminate].
  simpl in H'. injection H' as H'. symmetry in H'.
  apply declared_scalar_inv in H' as [md ->]. by exists md.
Qed.

Lemma get_by_path_member path member struct scalar :
  schema.get_by_path (path ++ [member]) struct = Some scalar ->
  exists f,
    schema.get_by_path path struct = Some f
    /\ schema.getattr f member = Ok scalar.
Proof.
  rewrite get_by_path_app.
  destruct (schema.get_by_path path struct) as [f|]; [|discriminate].
  intros H. exists f. split; [reflexivity|].
  destruct f as [|fields]; [discriminate|].
  rewrite get_by_path_cons in H. simpl.
  destruct (schema.lookup_field member fields) as [c|]; [|discriminate].
  simpl in H. by injection H as ->.
Qed.

Lemma getitem_get_by_path struct name :
  (exists fields, struct = schema.Struct fields) ->
  forall f,
    schema.get_by_path (schema.components name) struct = Some f ->
    schema.getitem struct name = Ok f.
Proof. intros [fields ->] f H. unfold schema.getitem. by rewrite H. Qed.

(** Whatever the field names: the output schema is a struct, and every
    scalar the dispatch built for an entry is found in it along the path
    that the entry's field name spells, with the dtype and blob it was
    built with. *)
Lemma init_keeps_scalars record specs model layer model' i field spec :
  __init__ record specs model = (Ok layer, model') ->
  specs !! i = Some (field, spec) ->
  (exists fields, output_schema layer = schema.Struct fields)
  /\ exists f0,
       entry_schema field spec f0
       /\ forall path d blob md0,
            schema.get_by_path path f0 = Some (schema.Scalar d blob md0) ->
            exists md,
              schema.get_by_path (schema.components field ++ path)
                (output_schema layer)
              = Some (schema.Scalar d blob md).
Proof.
  intros Hinit Hi.
  apply init_run in Hinit as (outputs & struct & struct' & Hloop & Hstruct
                              & Hattach & ->).
  apply init_loop_ok in Hloop as (_ & news & Heq & Hnews).
  simpl in Heq. subst outputs.
  apply attach_loop_general in Hattach as (_ & Hdecl & _).
  cbn [output_schema]. split.
  - destruct (new_Struct_is_Struct _ _ Hstruct) as [built ->].
    simpl in Hdecl. destruct struct' as [|fields]; [discriminate|].
    by exists fields.
  - destruct (Forall2_lookup_l _ _ _ _ _ Hnews Hi) as ([n f0] & Hi' & Hn & Hs).
    simpl in Hn, Hs. subst n. exists f0. split; [exact Hs|].
    intros path d blob md0 Hp.
    eapply get_by_path_declared_scalar; [exact Hdecl|].
    eapply new_Struct_keeps_scalars; [exact Hstruct| |exact Hp].
    apply list_elem_of_In. by eapply list_elem_of_lookup_2.
Qed.

(** The first loop stops at the first entry whose body raises, with the
    blobs of the entries before it handed out. *)
Lemma init_loop_stops pre entry post r :
  Forall (fun e => lengths_agree e.2 /\ supported_type (feature_type e.2))
    pre ->
  (forall acc m, init_entry acc entry m = (Raise r, m)) ->
  forall acc m,
    for_each init_entry acc (pre ++ entry :: post) m
    = (Raise r,
       {| blobs_requested :=
            blobs_requested m + length (flat_map blob_names pre) |}).
Proof.
  intros Hpre Hfail.
  induction Hpre as [|[f0 s0] pre [Hl Ht] _ IH]; intros acc m.
  - cbn [app for_each]. unfold bind. rewrite Hfail. f_equal.
    apply model_eq. simpl. lia.
  - cbn [app for_each]. unfold bind.
    destruct (init_entry_exact acc f0 s0 m Hl Ht) as (f & -> & _).
    rewrite IH. f_equal. f_equal. simpl. rewrite length_app. lia.
Qed.


(** ** The constructor on sample inputs *)

Example sample_layer_built :
  __init__ full_record sample_specs new_model
  = (Ok sample_layer, {| blobs_requested := 6 |}).
Proof. reflexivity. Qed.

Example sample_layer_ops :
  exists net',
    add_ops sample_layer new_net = (Ok tt, net')
    /\ map op_type (ops net')
       = ["SparseToDenseMask";
          "LengthsToRanges"; "SparseToDenseMask"; "Alias";
          "LengthsToRanges"; "SparseToDenseMask"; "Alias"; "Alias"].
Proof. eexists. split; reflexivity. Qed.

Example sample_layer_metadata :
  map (fun x : MetadataEntry => (x.1.1 !! "cardinality", x.1.2, x.2))
    sample_metadata
  = [(Some (MInt 1), [LayerBlob "f_output" 0],
      [schema.WithShape schema.float32 [2]]);
     (None, [LayerBlob "g_ranges" 1; LayerBlob "g_values" 2],
      [schema.WithShape schema.int32 [1; 2]; schema.Plain schema.int64]);
     (None, [LayerBlob "h_ranges" 3; LayerBlob "h_ids" 4; LayerBlob "h_scores" 5],
      [schema.WithShape schema.int32 [0; 2]; schema.Plain schema.int64;
       schema.Plain schema.float32])].
Proof. reflexivity. Qed.

(** Two FLOAT entries of one name: [schema.Struct] raises ValueError. *)
Example init_duplicate_scalar_name :
  (__init__ full_record
     [("f", {| feature_type := "FLOAT"; feature_names := []; feature_ids := [] |});
      ("f", {| feature_type := "FLOAT"; feature_names := []; feature_ids := [] |})]
     new_model).1
  = Raise (ValueError "Duplicate field name: f").
Proof. reflexivity. Qed.

(** Two ID_LIST entries of one name: merging their structs raises
    TypeError. *)
Example init_duplicate_struct_name :
  (__init__ full_record
     [("f", {| feature_type := "ID_LIST"; feature_names := []; feature_ids := [] |});
      ("f", {| feature_type := "ID_LIST"; feature_names := []; feature_ids := [] |})]
     new_model).1
  = Raise (TypeError "unsupported operand type(s) for +").
Proof. reflexivity. Qed.

(** An empty field name: [schema.Struct] raises AssertionError. *)
Example init_empty_name :
  (__init__ full_record
     [("", {| feature_type := "FLOAT"; feature_names := []; feature_ids := [] |})]
     new_model).1
  = Raise AssertionError.
Proof. reflexivity. Qed.

(** A feature id outside the 64-bit integers: [add_ops] raises ValueError
    and adds no operator. *)
Example add_ops_mask_out_of_range :
  exists layer model',
    __init__ full_record
      [("f", {| feature_type := "FLOAT";
                feature_names := ["a"]; feature_ids := [2 ^ 63]%Z |})]
      new_model
    = (Ok layer, model')
    /\ add_ops layer new_net = (Raise (ValueError "Value out of range"), new_net).
Proof. eexists _, _. split; reflexivity. Qed.

(** A member missing from the input record: [add_ops] raises what the
    record raises. *)
Example add_ops_missing_member :
  add_ops
    {| input_record := fun _ _ => Some (KeyError "f");
       input_specs := input_specs sample_layer;
       output_schema := output_schema sample_layer;
       zero := zero sample_layer;
       zero_range := zero_range sample_layer |}
    new_net
  = (Raise (KeyError "f"), new_net).
Proof. reflexivity. Qed.

(** ** C1: the failure modes of the constructor *)



Lemma sample_names_accepted : accepted_names sample_specs.
Proof.
  split; [split|].
  - simpl.
    repeat (apply NoDup_cons; split;
            [rewrite ?list_elem_of_In; simpl;
             intros H; repeat (destruct H as [H|H]; [discriminate H|]); exact H
            |]).
    apply NoDup_nil. exact I.
  - repeat (constructor; [reflexivity|]). constructor.
  - repeat (constructor; [split; discriminate|]). constructor.
Defined.


(** ** C2: the assertion on the lengths of names and ids *)

(** C2, as stated, fails: the second entry below has one name and no id,
    yet the constructor does not raise an assertion error; it has already
    raised TypeError at the first entry. *)
Lemma init_type_error_precedes_assertion :
  let specs :=
    [("a", {| feature_type := "DENSE";
              feature_names := []; feature_ids := [] |});
     ("b", {| feature_type := "FLOAT";
              feature_names := ["x"]; feature_ids := [] |})] in
  Exists (fun e => ~ lengths_agree e.2) specs
  /\ __init__ full_record specs new_model
     = (Raise (TypeError "Unsupported input type: DENSE"), new_model)
  /\ (__init__ full_record specs new_model).1 <> Raise AssertionError.
Proof.
  split; [|split; [reflexivity | discriminate]].
  apply Exists_cons_tl, Exists_cons_hd. unfold lengths_agree. simpl. lia.
Qed.

(** C2 (amended): when every entry has as many names as ids the
    assertion never fails, the loop that makes it ends without an
    assertion error; when some entry has not, the constructor raises an
    error and returns no layer; and that error is the assertion error
    whenever all the entries before the offending one carry a supported
    type. *)
Theorem init_asserts_lengths_agree record specs model :
  (Forall (fun e : string * FeatureSpec => lengths_agree e.2) specs ->
   (for_each init_entry [] specs model).1 <> Raise AssertionError)
  /\ (Exists (fun e : string * FeatureSpec => ~ lengths_agree e.2) specs ->
      exists e, (__init__ record specs model).1 = Raise e)
  /\ (forall pre field spec post,
        specs = pre ++ (field, spec) :: post ->
        Forall (fun e => supported_type (feature_type e.2)) pre ->
        ~ lengths_agree spec ->
        (__init__ record specs model).1 = Raise AssertionError).
Proof.
  split; [|split].
  - intros Hlen.
    destruct (decide (Forall (fun e : string * FeatureSpec =>
                                supported_type (feature_type e.2)) specs))
      as [Hty|Hty].
    + destruct (init_loop_total specs) with (acc := @nil (string * schema.Field))
                                             (model := model)
        as (outputs & model' & ->); [|discriminate].
      apply Forall_forall. intros e He. split.
      * by apply (proj1 (Forall_forall _ _) Hlen).
      * by apply (proj1 (Forall_forall _ _) Hty).
    + apply not_Forall_Exists in Hty; [|apply _].
      destruct (init_loop_unsupported specs Hlen Hty [] model)
        as (ty & model' & _ & ->).
      discriminate.
  - intros Hex.
    destruct (__init__ record specs model) as [[layer|e] model'] eqn:Hrun;
      [|by exists e].
    apply init_ok in Hrun as (_ & Hall & _). exfalso.
    apply Exists_exists in Hex as (e & He & Hbad).
    apply (proj1 (Forall_forall _ _) Hall) in He as [Hlen _]. contradiction.
  - intros pre field spec post -> Hpre Hbad.
    destruct (init_loop_assertion pre field spec post Hpre Hbad [] model)
      as (model' & Hrun).
    by rewrite (init_raise _ _ _ _ _ Hrun).
Qed.

Lemma init_asserts_lengths_agree_witness :
  (for_each init_entry [] sample_specs new_model).1 <> Raise AssertionError
  /\ (exists e,
        (__init__ full_record
           [("f", {| feature_type := "FLOAT";
                     feature_names := ["a"]; feature_ids := [] |})]
           new_model).1 = Raise e)
  /\ (__init__ full_record
        ([("f", {| feature_type := "FLOAT";
                   feature_names := ["a"]; feature_ids := [1%Z] |})]
         ++ ("g", {| feature_type := "ID_LIST";
                     feature_names := []; feature_ids := [5%Z] |})
            :: [])
        new_model).1 = Raise AssertionError.
Proof.
  split; [|split].
  - apply (init_asserts_lengths_agree full_record sample_specs new_model).
    repeat constructor.
  - apply (init_asserts_lengths_agree full_record
             [("f", {| feature_type := "FLOAT";
                       feature_names := ["a"]; feature_ids := [] |})]
             new_model).
    apply Exists_cons_hd. unfold lengths_agree. simpl. lia.
  - eapply (init_asserts_lengths_agree full_record _ new_model).
    + reflexivity.
    + repeat constructor.
    + unfold lengths_agree. simpl. lia.
Defined.

(** ** C3, C4, C5: the schema declared for each type *)

(** C3: for an entry of type 'FLOAT', output_schema[field] is a Scalar of
    dtype (float32, (len(feature_ids),)), whatever the other entries
    are. *)
Theorem float_entry_declares_dense_vector
  record specs model layer model' i field spec :
  __init__ record specs model = (Ok layer, model') ->
  specs !! i = Some (field, spec) ->
  feature_type spec = "FLOAT" ->
  exists k md,
    schema.getitem (output_schema layer) field
    = Ok (schema.Scalar
            (schema.WithShape schema.float32 [length (feature_ids spec)])
            (LayerBlob (field ++ "_output") k) md).
Proof.
  intros Hinit Hi Hty.
  destruct (init_keeps_scalars _ _ _ _ _ _ _ _ Hinit Hi)
    as (Hstruct & f0 & Hs & Hkeep).
  inversion Hs as [k Ht Hd | k1 k2 Ht Hd | k1 k2 k3 Ht Hd];
    [|congruence|congruence].
  subst f0.
  destruct (Hkeep [] _ _ _ eq_refl) as [md Hp].
  rewrite app_nil_r in Hp.
  exists k, md. by apply getitem_get_by_path.
Qed.

Lemma float_entry_declares_dense_vector_witness :
  exists k md,
    schema.getitem (output_schema sample_layer) "f"
    = Ok (schema.Scalar (schema.WithShape schema.float32 [2])
            (LayerBlob "f_output" k) md).
Proof.
  apply (float_entry_declares_dense_vector full_record sample_specs new_model
           sample_layer {| blobs_requested := 6 |} 0 "f"
           {| feature_type := "FLOAT";
              feature_names := ["a"; "b"]; feature_ids := [1; 2]%Z |});
    reflexivity.
Defined.

(** C4, as stated, fails: with an ID_LIST entry named 'a' and a FLOAT
    entry named 'a:b', output_schema['a'] has three components, 'ranges',
    'values' and 'b'. *)
Lemma id_list_entry_merged_with_nested_field :
  let specs :=
    [("a", {| feature_type := "ID_LIST";
              feature_names := []; feature_ids := [] |});
     ("a:b", {| feature_type := "FLOAT";
                feature_names := []; feature_ids := [] |})] in
  exists layer model' struct,
    __init__ full_record specs new_model = (Ok layer, model')
    /\ schema.getitem (output_schema layer) "a" = Ok struct
    /\ map fst (schema.fields_of struct) = ["ranges"; "values"; "b"].
Proof. eexists _, _, _. split; [reflexivity|]. split; reflexivity. Qed.

(** C4 (amended): for an entry of type 'ID_LIST', output_schema[field] is
    a Struct with a component 'ranges', a Scalar of dtype
    (int32, (len(feature_ids), 2)), and a component 'values', a Scalar of
    dtype int64; it has exactly these two components, in this order, when
    the field names of input_specs are distinct and without ':'. *)
Theorem id_list_entry_declares_ranges_values
  record specs model layer model' i field spec :
  __init__ record specs model = (Ok layer, model') ->
  specs !! i = Some (field, spec) ->
  feature_type spec = "ID_LIST" ->
  (exists struct k1 md1 k2 md2,
     schema.getitem (output_schema layer) field = Ok struct
     /\ schema.getattr struct "ranges"
        = Ok (schema.Scalar
                (schema.WithShape schema.int32 [length (feature_ids spec); 2])
                (LayerBlob (field ++ "_ranges") k1) md1)
     /\ schema.getattr struct "values"
        = Ok (schema.Scalar (schema.Plain schema.int64)
                (LayerBlob (field ++ "_values") k2) md2))
  /\ (plain_names specs ->
      exists k1 md1 k2 md2,
        schema.getitem (output_schema layer) field
        = Ok (schema.Struct
                [("ranges",
                  schema.Scalar
                    (schema.WithShape schema.int32
                       [length (feature_ids spec); 2])
                    (LayerBlob (field ++ "_ranges") k1) md1);
                 ("values",
                  schema.Scalar (schema.Plain schema.int64)
                    (LayerBlob (field ++ "_values") k2) md2)])).
Proof.
  intros Hinit Hi Hty. split.
  - destruct (init_keeps_scalars _ _ _ _ _ _ _ _ Hinit Hi)
      as (Hstruct & f0 & Hs & Hkeep).
    inversion Hs as [k Ht Hd | k1 k2 Ht Hd | k1 k2 k3 Ht Hd];
      [congruence| |congruence].
    subst f0.
    destruct (Hkeep ["ranges"] _ _ _ eq_refl) as [md1 Hp1].
    destruct (Hkeep ["values"] _ _ _ eq_refl) as [md2 Hp2].
    apply get_by_path_member in Hp1 as (struct & Hget & Hranges).
    apply get_by_path_member in Hp2 as (struct2 & Hget2 & Hvalues).
    rewrite Hget in Hget2. injection Hget2 as <-.
    exists struct, k1, md1, k2, md2.
    split; [by apply getitem_get_by_path|]. by split.
  - intros Hplain.
    destruct (init_field_plain _ _ _ _ _ _ _ _ Hinit Hplain Hi)
      as (f & _ & Hs & Hget).
    destruct (id_list_field_inv _ _ _ Hty Hs) as (k1 & md1 & k2 & md2 & ->).
    by exists k1, md1, k2, md2.
Qed.

Lemma sample_names_plain : plain_names sample_specs.
Proof. exact (proj1 sample_names_accepted). Defined.

Lemma id_list_entry_declares_ranges_values_witness :
  (exists struct k1 md1 k2 md2,
     schema.getitem (output_schema sample_layer) "g" = Ok struct
     /\ schema.getattr struct "ranges"
        = Ok (schema.Scalar (schema.WithShape schema.int32 [1; 2])
                (LayerBlob "g_ranges" k1) md1)
     /\ schema.getattr struct "values"
        = Ok (schema.Scalar (schema.Plain schema.int64)
                (LayerBlob "g_values" k2) md2))
  /\ (plain_names sample_specs ->
      exists k1 md1 k2 md2,
        schema.getitem (output_schema sample_layer) "g"
        = Ok (schema.Struct
                [("ranges",
                  schema.Scalar (schema.WithShape schema.int32 [1; 2])
                    (LayerBlob "g_ranges" k1) md1);
                 ("values",
                  schema.Scalar (schema.Plain schema.int64)
                    (LayerBlob "g_values" k2) md2)])).
Proof.
  apply (id_list_entry_declares_ranges_values full_record sample_specs
           new_model sample_layer {| blobs_requested := 6 |} 1 "g"
           {| feature_type := "ID_LIST";
              feature_names := ["c"]; feature_ids := [7]%Z |});
    reflexivity.
Defined.

(** C5, as stated, fails: with an ID_SCORE_LIST entry named 'a' and a
    FLOAT entry named 'a:b', output_schema['a'] has four components,
    'ranges', 'ids', 'scores' and 'b'. *)
Lemma id_score_list_entry_merged_with_nested_field :
  let specs :=
    [("a", {| feature_type := "ID_SCORE_LIST";
              feature_names := []; feature_ids := [] |});
     ("a:b", {| feature_type := "FLOAT";
                feature_names := []; feature_ids := [] |})] in
  exists layer model' struct,
    __init__ full_record specs new_model = (Ok layer, model')
    /\ schema.getitem (output_schema layer) "a" = Ok struct
    /\ map fst (schema.fields_of struct) = ["ranges"; "ids"; "scores"; "b"].
Proof. eexists _, _, _. split; [reflexivity|]. split; reflexivity. Qed.

(** C5 (amended): for an entry of type 'ID_SCORE_LIST',
    output_schema[field] is a Struct with a component 'ranges', a Scalar
    of dtype (int32, (len(feature_ids), 2)), a component 'ids', a Scalar
    of dtype int64, and a component 'scores', a Scalar of dtype float32;
    it has exactly these three components, in this order, when the field
    names of input_specs are distinct and without ':'. *)
Theorem id_score_list_entry_declares_ranges_ids_scores
  record specs model layer model' i field spec :
  __init__ record specs model = (Ok layer, model') ->
  specs !! i = Some (field, spec) ->
  feature_type spec = "ID_SCORE_LIST" ->
  (exists struct k1 md1 k2 md2 k3 md3,
     schema.getitem (output_schema layer) field = Ok struct
     /\ schema.getattr struct "ranges"
        = Ok (schema.Scalar
                (schema.WithShape schema.int32 [length (feature_ids spec); 2])
                (LayerBlob (field ++ "_ranges") k1) md1)
     /\ schema.getattr struct "ids"
        = Ok (schema.Scalar (schema.Plain schema.int64)
                (LayerBlob (field ++ "_ids") k2) md2)
     /\ schema.getattr struct "scores"
        = Ok (schema.Scalar (schema.Plain schema.float32)
                (LayerBlob (field ++ "_scores") k3) md3))
  /\ (plain_names specs ->
      exists k1 md1 k2 md2 k3 md3,
        schema.getitem (output_schema layer) field
        = Ok (schema.Struct
                [("ranges",
                  schema.Scalar
                    (schema.WithShape schema.int32
                       [length (feature_ids spec); 2])
                    (LayerBlob (field ++ "_ranges") k1) md1);
                 ("ids",
                  schema.Scalar (schema.Plain schema.int64)
                    (LayerBlob (field ++ "_ids") k2) md2);
                 ("scores",
                  schema.Scalar (schema.Plain schema.float32)
                    (LayerBlob (field ++ "_scores") k3) md3)])).
Proof.
  intros Hinit Hi Hty. split.
  - destruct (init_keeps_scalars _ _ _ _ _ _ _ _ Hinit Hi)
      as (Hstruct & f0 & Hs & Hkeep).
    inversion Hs as [k Ht Hd | k1 k2 Ht Hd | k1 k2 k3 Ht Hd];
      [congruence|congruence|].
    subst f0.
    destruct (Hkeep ["ranges"] _ _ _ eq_refl) as [md1 Hp1].
    destruct (Hkeep ["ids"] _ _ _ eq_refl) as [md2 Hp2].
    destruct (Hkeep ["scores"] _ _ _ eq_refl) as [md3 Hp3].
    apply get_by_path_member in Hp1 as (struct & Hget & Hranges).
    apply get_by_path_member in Hp2 as (struct2 & Hget2 & Hids).
    apply get_by_path_member in Hp3 as (struct3 & Hget3 & Hscores).
    rewrite Hget in Hget2, Hget3.
    injection Hget2 as <-. injection Hget3 as <-.
    exists struct, k1, md1, k2, md2, k3, md3.
    split; [by apply getitem_get_by_path|]. by repeat split.
  - intros Hplain.
    destruct (init_field_plain _ _ _ _ _ _ _ _ Hinit Hplain Hi)
      as (f & _ & Hs & Hget).
    destruct (id_score_list_field_inv _ _ _ Hty Hs)
      as (k1 & md1 & k2 & md2 & k3 & md3 & ->).
    by exists k1, md1, k2, md2, k3, md3.
Qed.

Lemma id_score_list_entry_declares_ranges_ids_scores_witness :
  (exists struct k1 md1 k2 md2 k3 md3,
     schema.getitem (output_schema sample_layer) "h" = Ok struct
     /\ schema.getattr struct "ranges"
        = Ok (schema.Scalar (schema.WithShape schema.int32 [0; 2])
                (LayerBlob "h_ranges" k1) md1)
     /\ schema.getattr struct "ids"
        = Ok (schema.Scalar (schema.Plain schema.int64)
                (LayerBlob "h_ids" k2) md2)
     /\ schema.getattr struct "scores"
        = Ok (schema.Scalar (schema.Plain schema.float32)
                (LayerBlob "h_scores" k3) md3))
  /\ (plain_names sample_specs ->
      exists k1 md1 k2 md2 k3 md3,
        schema.getitem (output_schema sample_layer) "h"
        = Ok (schema.Struct
                [("ranges",
                  schema.Scalar (schema.WithShape schema.int32 [0; 2])
                    (LayerBlob "h_ranges" k1) md1);
                 ("ids",
                  schema.Scalar (schema.Plain schema.int64)
                    (LayerBlob "h_ids" k2) md2);
                 ("scores",
                  schema.Scalar (schema.Plain schema.float32)
                    (LayerBlob "h_scores" k3) md3)])).
Proof.
  apply (id_score_list_entry_declares_ranges_ids_scores full_record
           sample_specs new_model sample_layer {| blobs_requested := 6 |}
           2 "h"
           {| feature_type := "ID_SCORE_LIST";
              feature_names := []; feature_ids := [] |});
    reflexivity.
Defined.

(** ** C8: the accepted types and [_known_types] *)

(** C8: the constructor returns a layer only when every type tag is one
    of 'FLOAT', 'ID_LIST', 'ID_SCORE_LIST', and it does return one for
    every such input whose entries have as many names as ids and whose
    field names are distinct, not empty, not 'lengths' and without ':';
    that set of tags contains every member of [_known_types] and is not
    contained in it, an entry of type 'ID_SCORE_LIST' being accepted
    although the type is not a member. *)
Theorem accepted_types_exceed_known_types record specs model :
  ((exists layer model', __init__ record specs model = (Ok layer, model')) ->
   Forall (fun e => In (feature_type e.2)
                      ["FLOAT"; "ID_LIST"; "ID_SCORE_LIST"]) specs)
  /\ (Forall (fun e : string * FeatureSpec => lengths_agree e.2) specs ->
      accepted_names specs ->
      Forall (fun e => In (feature_type e.2)
                         ["FLOAT"; "ID_LIST"; "ID_SCORE_LIST"]) specs ->
      exists layer model', __init__ record specs model = (Ok layer, model'))
  /\ incl _known_types ["FLOAT"; "ID_LIST"; "ID_SCORE_LIST"]
  /\ ~ incl ["FLOAT"; "ID_LIST"; "ID_SCORE_LIST"] _known_types
  /\ ~ In "ID_SCORE_LIST" _known_types
  /\ (forall field names ids,
        length names = length ids ->
        schema.has_separator field = false ->
        field <> "" -> field <> "lengths" ->
        exists layer model',
          __init__ record
            [(field, {| feature_type := "ID_SCORE_LIST";
                        feature_names := names;
                        feature_ids := ids |})] model
          = (Ok layer, model')).
Proof.
  assert (Hnot : ~ In "ID_SCORE_LIST" _known_types).
  { unfold _known_types. simpl. intros [H|[H|[]]]; discriminate H. }
  split; [|split; [|split; [|split; [|split]]]].
  - intros (layer & model' & Hrun).
    apply init_ok in Hrun as (_ & Hall & _).
    eapply Forall_impl; [exact Hall|]. intros e [_ Hty]. simpl.
    unfold supported_type in Hty. intuition auto.
  - intros Hlen Hnames Hty. apply init_total; [|exact Hnames].
    apply Forall_forall. intros e He. split.
    + by apply (proj1 (Forall_forall _ _) Hlen).
    + apply (proj1 (Forall_forall _ _) Hty) in He. simpl in He.
      unfold supported_type. intuition auto.
  - intros ty. unfold _known_types. simpl. tauto.
  - intros Hincl. apply Hnot, Hincl. simpl. tauto.
  - exact Hnot.
  - intros field names ids Hn Hsep Hne Hnl. apply init_total.
    + constructor; [|constructor]. split; [exact Hn|].
      unfold supported_type. simpl. tauto.
    + split; [split|].
      * simpl. apply NoDup_cons. split; [|apply NoDup_nil; exact I].
        apply not_elem_of_nil.
      * by constructor.
      * by constructor.
Qed.

Lemma accepted_types_exceed_known_types_witness :
  Forall (fun e => In (feature_type e.2)
                     ["FLOAT"; "ID_LIST"; "ID_SCORE_LIST"]) sample_specs
  /\ (exists layer model',
        __init__ full_record sample_specs new_model = (Ok layer, model'))
  /\ (exists layer model',
        __init__ full_record
          [("h", {| feature_type := "ID_SCORE_LIST";
                    feature_names := ["a"];
                    feature_ids := [1%Z] |})] new_model
        = (Ok layer, model')).
Proof.
  assert (Htags : Forall (fun e : string * FeatureSpec =>
                            In (feature_type e.2)
                              ["FLOAT"; "ID_LIST"; "ID_SCORE_LIST"])
                    sample_specs).
  { repeat (constructor; [simpl; tauto|]). constructor. }
  destruct (accepted_types_exceed_known_types full_record sample_specs
              new_model) as (Honly & Hall & _).
  destruct (accepted_types_exceed_known_types full_record [] new_model)
    as (_ & _ & _ & _ & _ & Hscore).
  split; [|split].
  - apply Honly. by eexists _, _.
  - apply Hall; [repeat constructor | exact sample_names_accepted | exact Htags].
  - apply Hscore; [reflexivity | reflexivity | discriminate | discriminate].
Defined.

(** ** add_ops *)

Lemma record_member_Ok self field path b :
  record_member self field path = Ok b -> b = RecordBlob field path.
Proof.
  unfold record_member. destruct (input_record self field path);
    [discriminate|]. by intros [= <-].
Qed.

Ltac member H :=
  match goal with
  | |- context [record_member ?s ?f ?p] =>
      destruct (record_member s f p) as [?b|?e] eqn:H;
      [apply record_member_Ok in H; subst | discriminate]
  end.

(** The operators one pass of the loop body appends, whenever it
    completes. *)
Lemma add_ops_entry_exact self field spec net net' :
  add_ops_entry self tt (field, spec) net = (Ok tt, net') ->
  exists outs group,
    entry_group self field spec (scoped_requested net) outs group
    /\ ops net' = ops net ++ group
    /\ scoped_requested net'
       = scoped_requested net + length (List.filter is_ranges group).
Proof.
  run_ops.
  destruct (String.eqb_spec (feature_type spec) "FLOAT") as [HF|HF].
  { member H1. member H2. member H3.
    destruct (output_blob self field) as [b|e] eqn:Hb; [|discriminate].
    destruct (forallb int64 (feature_ids spec)) eqn:Hmask; [|discriminate].
    intros H. injection H as <-. simpl.
    eexists _, _. split; [by apply group_float|]. split; [reflexivity|].
    simpl. lia. }
  destruct (String.eqb_spec (feature_type spec) "ID_LIST") as [HL|HL].
  { member H1. member H2. member H3.
    destruct (output_member_blob self field "ranges") as [b1|e] eqn:Hb1;
      [|discriminate].
    destruct (forallb int64 (feature_ids spec)) eqn:Hmask; [|discriminate].
    member H4.
    destruct (output_member_blob self field "values") as [b2|e] eqn:Hb2;
      [|discriminate].
    intros H. injection H as <-. simpl. rewrite <- !app_assoc. simpl.
    eexists _, _. split; [by apply group_id_list|]. split; [reflexivity|].
    simpl. lia. }
  destruct (String.eqb_spec (feature_type spec) "ID_SCORE_LIST") as [HS|HS].
  { member H1. member H2. member H3.
    destruct (output_member_blob self field "ranges") as [b1|e] eqn:Hb1;
      [|discriminate].
    destruct (forallb int64 (feature_ids spec)) eqn:Hmask; [|discriminate].
    member H4.
    destruct (output_member_blob self field "ids") as [b2|e] eqn:Hb2;
      [|discriminate].
    member H5.
    destruct (output_member_blob self field "scores") as [b3|e] eqn:Hb3;
      [|discriminate].
    intros H. injection H as <-. simpl. rewrite <- !app_assoc. simpl.
    eexists _, _. split; [by apply group_id_score_list|].
    split; [reflexivity|]. simpl. lia. }
  intros H. injection H as <-. exists [], []. rewrite app_nil_r.
  split; [|split; [reflexivity | simpl; lia]].
  apply group_other. unfold supported_type. tauto.
Qed.

Lemma add_ops_loop_exact self specs :
  forall net net',
    for_each (add_ops_entry self) tt specs net = (Ok tt, net') ->
    exists groups,
      ops net' = ops net ++ concat groups
      /\ scoped_requested net'
         = scoped_requested net
           + length (List.filter is_ranges (concat groups))
      /\ Forall2
           (fun e g =>
              exists k outs,
                scoped_requested net <= k
                /\ k + length (List.filter is_ranges g)
                   <= scoped_requested net'
                /\ entry_group self e.1 e.2 k outs g)
           specs groups.
Proof.
  induction specs as [|[field spec] specs IH]; intros net net' H.
  - simpl in H. injection H as <-. exists []. simpl.
    rewrite app_nil_r. split; [reflexivity|]. split; [lia | constructor].
  - cbn [for_each] in H. unfold bind in H.
    destruct (add_ops_entry self tt (field, spec) net) as [[[]|e] net1] eqn:He;
      [|discriminate].
    apply add_ops_entry_exact in He as (outs & g & Hg & Hops1 & Hk1).
    apply IH in H as (groups & Hops & Hk & Hgroups).
    exists (g :: groups). split; [|split].
    + rewrite Hops, Hops1. simpl. by rewrite app_assoc.
    + simpl. rewrite List.filter_app, length_app. lia.
    + constructor.
      * exists (scoped_requested net), outs. simpl.
        split; [lia|]. split; [lia | exact Hg].
      * eapply Forall2_impl; [exact Hgroups|].
        intros e g' (k & outs' & Hlo & Hhi & Hg').
        exists k, outs'. split; [lia|]. split; [lia | exact Hg'].
Qed.

Lemma entry_group_written self field spec k outs g :
  entry_group self field spec k outs g -> written g = outs.
Proof. destruct 1; reflexivity. Qed.

Lemma entry_group_outs self field spec k outs g f :
  schema.getitem (output_schema self) field = Ok f ->
  entry_schema field spec (schema.declared f) ->
  entry_group self field spec k outs g ->
  outs = schema.field_blobs f.
Proof.
  intros Hget Hs Hg.
  destruct Hg as [out Ht Ho | r v Ht Hr Hv | r i s Ht Hr Hi Hsc | Hbad].
  - destruct (float_field_inv _ _ _ Ht Hs) as (k0 & md & ->).
    unfold output_blob in Ho. rewrite Hget in Ho. simpl in Ho.
    by injection Ho as <-.
  - destruct (id_list_field_inv _ _ _ Ht Hs) as (k1 & md1 & k2 & md2 & ->).
    unfold output_member_blob in Hr, Hv. rewrite Hget in Hr, Hv.
    simpl in Hr, Hv. injection Hr as <-. by injection Hv as <-.
  - destruct (id_score_list_field_inv _ _ _ Ht Hs)
      as (k1 & md1 & k2 & md2 & k3 & md3 & ->).
    unfold output_member_blob in Hr, Hi, Hsc. rewrite Hget in Hr, Hi, Hsc.
    simpl in Hr, Hi, Hsc.
    injection Hr as <-. injection Hi as <-. by injection Hsc as <-.
  - exfalso. apply Hbad. unfold supported_type.
    inversion Hs; tauto.
Qed.

Lemma written_concat groups :
  written (concat groups) = flat_map written groups.
Proof.
  unfold written. induction groups as [|g groups IH]; simpl; [reflexivity|].
  by rewrite List.filter_app, flat_map_app, IH.
Qed.

Lemma entry_group_ops self field spec k outs g :
  supported_type (feature_type spec) ->
  entry_group self field spec k outs g -> entry_ops spec g.
Proof.
  intros Hty Hg. unfold entry_ops, operators_of.
  destruct Hg as [out Ht Ho Hm | r v Ht Hr Hv Hm | r i s Ht Hr Hi Hsc Hm | Hbad];
    [rewrite Ht; split; [reflexivity | mask_only] ..|contradiction].
Qed.


Lemma add_ops_loop_ops self specs net net' :
  Forall (fun e : string * FeatureSpec => supported_type (feature_type e.2))
    specs ->
  for_each (add_ops_entry self) tt specs net = (Ok tt, net') ->
  exists groups,
    ops net' = ops net ++ concat groups
    /\ Forall2 (fun e g => entry_ops e.2 g) specs groups.
Proof.
  intros Hty Hrun.
  apply add_ops_loop_exact in Hrun as (groups & Hops & _ & Hgroups).
  exists groups. split; [exact Hops|].
  clear Hops. induction Hgroups as [|e g specs groups (k & outs & _ & _ & Hg) _ IH].
  - constructor.
  - apply Forall_cons in Hty as [Ht Hty].
    constructor; [by eapply entry_group_ops | by apply IH].
Qed.

(** ** C6: the operators emitted by add_ops *)

(** C6, as stated, fails: for a layer with a single entry of type 'FLOAT'
    add_ops emits one operator, a SparseToDenseMask; no LengthsToRanges
    and no Alias is called for that entry. *)
Lemma add_ops_float_emits_mask_only :
  let specs :=
    [("f", {| feature_type := "FLOAT";
              feature_names := ["a"]; feature_ids := [1%Z] |})] in
  exists layer model' net',
    __init__ full_record specs new_model = (Ok layer, model')
    /\ add_ops layer new_net = (Ok tt, net')
    /\ map op_type (ops net') = ["SparseToDenseMask"]
    /\ ~ In "LengthsToRanges" (map op_type (ops net'))
    /\ ~ In "Alias" (map op_type (ops net')).
Proof.
  eexists _, _, _. split; [reflexivity|]. split; [reflexivity|].
  split; [reflexivity|].
  split; simpl; intros [H|[]]; discriminate H.
Qed.

(** C6 (amended): on a layer the constructor returned, whenever add_ops
    completes, the operators it appended to the net are, entry by entry
    in the order of input_specs: one SparseToDenseMask for a 'FLOAT'
    entry; LengthsToRanges, SparseToDenseMask, Alias for an 'ID_LIST'
    entry; LengthsToRanges, SparseToDenseMask, Alias, Alias for an
    'ID_SCORE_LIST' entry; and every SparseToDenseMask has the entry's
    feature_ids as its mask argument. *)
Theorem add_ops_emits_operators_per_type
  record specs model layer model' net net' :
  __init__ record specs model = (Ok layer, model') ->
  add_ops layer net = (Ok tt, net') ->
  exists groups,
    ops net' = ops net ++ concat groups
    /\ Forall2
         (fun e emitted =>
            map op_type emitted = operators_of (feature_type e.2)
            /\ forall op, In op emitted ->
                 op_type op = "SparseToDenseMask" ->
                 op_arg op = [("mask", feature_ids e.2)])
         specs groups.
Proof.
  intros Hinit Hrun.
  pose proof (init_ok _ _ _ _ _ Hinit) as (Hspecs & Hall & _).
  unfold add_ops in Hrun. rewrite Hspecs in Hrun.
  apply add_ops_loop_ops in Hrun; [exact Hrun|].
  eapply Forall_impl; [exact Hall|]. by intros e [_ Hty].
Qed.

Lemma add_ops_emits_operators_per_type_witness :
  exists groups,
    ops {| ops := emitted_sample; scoped_requested := 2 |}
    = ops new_net ++ concat groups
    /\ Forall2
         (fun e emitted =>
            map op_type emitted = operators_of (feature_type e.2)
            /\ forall op, In op emitted ->
                 op_type op = "SparseToDenseMask" ->
                 op_arg op = [("mask", feature_ids e.2)])
         sample_specs groups.
Proof.
  apply (add_ops_emits_operators_per_type full_record sample_specs new_model
           sample_layer {| blobs_requested := 6 |} new_net
           {| ops := emitted_sample; scoped_requested := 2 |});
    reflexivity.
Defined.

(** ** get_metadata *)

Lemma set_last_dict_snoc key value metadata d blobs types :
  set_last_dict key value (metadata ++ [(d, blobs, types)])
  = Ok (metadata ++ [(<[key := value]> d, blobs, types)]).
Proof.
  unfold set_last_dict.
  destruct (metadata ++ [(d, blobs, types)]) as [|x rest] eqn:Heq.
  { by destruct metadata. }
  rewrite <- Heq. f_equal.
  rewrite alter_app_r_alt; [|rewrite length_app; simpl; lia].
  rewrite length_app. simpl.
  replace (length metadata + 1 - 1 - length metadata) with 0 by lia.
  reflexivity.
Qed.

Lemma get_metadata_entry_eq self metadata field spec :
  get_metadata_entry self metadata (field, spec)
  = match schema.getitem (output_schema self) field with
    | Ok f =>
        Ok (metadata ++
            [(metadata_dict spec, schema.field_blobs f, schema.field_types f)])
    | Raise e => Raise e
    end.
Proof.
  unfold get_metadata_entry, metadata_dict.
  destruct (schema.getitem (output_schema self) field) as [f|e];
    [|reflexivity].
  destruct (String.eqb (feature_type spec) "FLOAT"); [|reflexivity].
  apply set_last_dict_snoc.
Qed.

Lemma get_metadata_loop self specs :
  Forall (fun e : string * FeatureSpec =>
            exists f, schema.getitem (output_schema self) e.1 = Ok f) specs ->
  forall acc,
    exists news,
      for_each_pure (get_metadata_entry self) acc specs = Ok (acc ++ news)
      /\ Forall2 (metadata_of self) specs news.
Proof.
  induction 1 as [|[field spec] specs [f Hget] _ IH]; intros acc.
  - exists []. by rewrite app_nil_r.
  - cbn [for_each_pure]. rewrite get_metadata_entry_eq.
    simpl in Hget. rewrite Hget.
    destruct (IH (acc ++ [(metadata_dict spec, schema.field_blobs f,
                           schema.field_types f)])) as (news & -> & Hnews).
    eexists (_ :: news). split; [by rewrite <- app_assoc|].
    constructor; [|assumption]. by exists f.
Qed.

(** On a layer the constructor returned, get_metadata returns, with one
    element per entry. *)
Lemma get_metadata_built record specs model layer model' :
  __init__ record specs model = (Ok layer, model') ->
  exists metadata,
    get_metadata layer = Ok metadata
    /\ Forall2 (metadata_of layer) specs metadata.
Proof.
  intros Hinit.
  apply init_ok in Hinit as (Hspecs & _ & Hget).
  unfold get_metadata. rewrite Hspecs.
  destruct (get_metadata_loop layer specs Hget [])
    as (news & Hrun & Hnews).
  by exists news.
Qed.

Lemma metadata_dict_type spec :
  metadata_dict spec !! "type" = Some (MStr (feature_type spec)).
Proof.
  unfold metadata_dict.
  destruct (String.eqb (feature_type spec) "FLOAT"); by simplify_map_eq.
Qed.

Lemma metadata_dict_names spec :
  metadata_dict spec !! "names" = Some (MNames (feature_names spec)).
Proof.
  unfold metadata_dict.
  destruct (String.eqb (feature_type spec) "FLOAT"); by simplify_map_eq.
Qed.

Lemma metadata_dict_ids spec :
  metadata_dict spec !! "ids" = Some (MIds (feature_ids spec)).
Proof.
  unfold metadata_dict.
  destruct (String.eqb (feature_type spec) "FLOAT"); by simplify_map_eq.
Qed.

Lemma metadata_dict_cardinality spec :
  metadata_dict spec !! "cardinality"
  = if String.eqb (feature_type spec) "FLOAT" then Some (MInt 1) else None.
Proof.
  unfold metadata_dict.
  destruct (String.eqb (feature_type spec) "FLOAT"); by simplify_map_eq.
Qed.

(** ** C7: the contents of the metadata list *)

(** C7: on a layer the constructor returned, get_metadata returns a list
    with one element per entry of input_specs; the element for the entry
    (field, feature_specs) holds a dictionary with feature_type under
    'type', feature_names under 'names' and feature_ids under 'ids', then
    the field_blobs() and the field_types() of output_schema[field]. *)
Theorem get_metadata_one_element_per_entry record specs model layer model' :
  __init__ record specs model = (Ok layer, model') ->
  exists metadata,
    get_metadata layer = Ok metadata
    /\ length metadata = length specs
    /\ forall i field spec,
         specs !! i = Some (field, spec) ->
         exists d f,
           metadata !! i
           = Some (d, schema.field_blobs f, schema.field_types f)
           /\ schema.getitem (output_schema layer) field = Ok f
           /\ d !! "type" = Some (MStr (feature_type spec))
           /\ d !! "names" = Some (MNames (feature_names spec))
           /\ d !! "ids" = Some (MIds (feature_ids spec)).
Proof.
  intros Hinit.
  destruct (get_metadata_built _ _ _ _ _ Hinit) as (metadata & Hrun & Hmeta).
  exists metadata. split; [exact Hrun|]. split.
  - symmetry. by eapply Forall2_length.
  - intros i field spec Hi.
    destruct (Forall2_lookup_l _ _ _ _ _ Hmeta Hi) as (x & Hx & f & Hget & ->).
    simpl in Hget. exists (metadata_dict spec), f.
    split; [exact Hx|]. split; [exact Hget|].
    split; [apply metadata_dict_type|].
    split; [apply metadata_dict_names | apply metadata_dict_ids].
Qed.

Lemma get_metadata_one_element_per_entry_witness :
  exists metadata,
    get_metadata sample_layer = Ok metadata
    /\ length metadata = length sample_specs
    /\ forall i field spec,
         sample_specs !! i = Some (field, spec) ->
         exists d f,
           metadata !! i
           = Some (d, schema.field_blobs f, schema.field_types f)
           /\ schema.getitem (output_schema sample_layer) field = Ok f
           /\ d !! "type" = Some (MStr (feature_type spec))
           /\ d !! "names" = Some (MNames (feature_names spec))
           /\ d !! "ids" = Some (MIds (feature_ids spec)).
Proof.
  exact (get_metadata_one_element_per_entry full_record sample_specs new_model
           sample_layer {| blobs_requested := 6 |} eq_refl).
Defined.

(** The element of the list at the position of an entry. *)
Lemma get_metadata_lookup
  record specs model layer model' metadata i field spec d blobs types :
  __init__ record specs model = (Ok layer, model') ->
  get_metadata layer = Ok metadata ->
  specs !! i = Some (field, spec) ->
  metadata !! i = Some (d, blobs, types) ->
  exists f,
    schema.getitem (output_schema layer) field = Ok f
    /\ d = metadata_dict spec
    /\ blobs = schema.field_blobs f
    /\ types = schema.field_types f.
Proof.
  intros Hinit Hrun Hi Hx.
  destruct (get_metadata_built _ _ _ _ _ Hinit) as (metadata' & Hrun' & Hmeta).
  assert (metadata' = metadata) as -> by congruence.
  destruct (Forall2_lookup_l _ _ _ _ _ Hmeta Hi) as (x & Hx' & f & Hget & Hxeq).
  simpl in Hxeq, Hget. subst x.
  pose proof (eq_trans (eq_sym Hx) Hx') as Heq.
  injection Heq as -> -> ->. by exists f.
Qed.

(** ** C9: order preservation *)

(** C9, as stated, fails: the entries 'a:b' and 'a:c' give an output
    schema with the single field 'a'. *)
Lemma init_nested_names_share_a_field :
  let specs :=
    [("a:b", {| feature_type := "FLOAT";
                feature_names := []; feature_ids := [] |});
     ("a:c", {| feature_type := "ID_LIST";
                feature_names := []; feature_ids := [] |})] in
  exists layer model',
    __init__ full_record specs new_model = (Ok layer, model')
    /\ map fst (schema.fields_of (output_schema layer)) = ["a"]
    /\ map fst (schema.fields_of (output_schema layer)) <> map fst specs.
Proof.
  eexists _, _. split; [reflexivity|]. split; [reflexivity | discriminate].
Qed.

(** C9 (amended): on a layer the constructor returned, get_metadata
    returns a list whose elements carry, in the same order and one per
    entry, the type, names and ids of the entries; and when the field
    names of input_specs are distinct and without ':', the field names of
    output_schema are the field names of input_specs, in the same order
    and one per entry, and the blobs and types of the i-th element of
    get_metadata are those of the i-th field of output_schema. *)
Theorem init_and_get_metadata_preserve_order
  record specs model layer model' :
  __init__ record specs model = (Ok layer, model') ->
  (plain_names specs ->
   map fst (schema.fields_of (output_schema layer)) = map fst specs)
  /\ exists metadata,
       get_metadata layer = Ok metadata
       /\ map (fun x : MetadataEntry =>
                 (x.1.1 !! "type", x.1.1 !! "names", x.1.1 !! "ids")) metadata
          = map (fun e : string * FeatureSpec =>
                   (Some (MStr (feature_type e.2)),
                    Some (MNames (feature_names e.2)),
                    Some (MIds (feature_ids e.2)))) specs
       /\ (plain_names specs ->
           map (fun x : MetadataEntry => (x.1.2, x.2)) metadata
           = map (fun fld : string * schema.Field =>
                    (schema.field_blobs fld.2, schema.field_types fld.2))
               (schema.fields_of (output_schema layer))).
Proof.
  intros Hinit.
  destruct (get_metadata_built _ _ _ _ _ Hinit) as (metadata & Hrun & Hmeta).
  split.
  - intros Hplain.
    destruct (init_flat _ _ _ _ _ Hinit Hplain) as (fields & -> & Hdecl).
    by apply declares_names.
  - exists metadata. split; [exact Hrun|]. split.
    + clear -Hmeta.
      induction Hmeta as [|[field spec] x specs metadata (f & _ & ->) _ IH];
        simpl; [reflexivity|].
      rewrite metadata_dict_type, metadata_dict_names, metadata_dict_ids.
      by rewrite IH.
    + intros Hplain.
      destruct (init_flat _ _ _ _ _ Hinit Hplain) as (fields & Hschema & Hdecl).
      rewrite Hschema. cbn [schema.fields_of].
      apply list_eq. intros i.
      change (map ?g ?l) with (g <$> l). rewrite !list_lookup_fmap.
      destruct (specs !! i) as [[field spec]|] eqn:Hi.
      * destruct (Forall2_lookup_l _ _ _ _ _ Hmeta Hi)
          as (x & -> & f & Hget & ->).
        destruct (init_field_plain _ _ _ _ _ _ _ _ Hinit Hplain Hi)
          as (f' & Hf' & _ & Hget').
        rewrite Hschema in Hf'. cbn [schema.fields_of] in Hf'.
        rewrite Hf'. simpl in Hget. rewrite Hget' in Hget.
        by injection Hget as <-.
      * apply lookup_ge_None in Hi.
        rewrite (proj2 (lookup_ge_None metadata i)),
                (proj2 (lookup_ge_None fields i)); [reflexivity| |].
        -- by rewrite <- (Forall2_length _ _ _ Hdecl).
        -- by rewrite <- (Forall2_length _ _ _ Hmeta).
Qed.

Lemma init_and_get_metadata_preserve_order_witness :
  map fst (schema.fields_of (output_schema sample_layer)) = ["f"; "g"; "h"]
  /\ exists metadata,
       get_metadata sample_layer = Ok metadata
       /\ map (fun x : MetadataEntry =>
                 (x.1.1 !! "type", x.1.1 !! "names", x.1.1 !! "ids")) metadata
          = map (fun e : string * FeatureSpec =>
                   (Some (MStr (feature_type e.2)),
                    Some (MNames (feature_names e.2)),
                    Some (MIds (feature_ids e.2)))) sample_specs
       /\ map (fun x : MetadataEntry => (x.1.2, x.2)) metadata
          = map (fun fld : string * schema.Field =>
                   (schema.field_blobs fld.2, schema.field_types fld.2))
              (schema.fields_of (output_schema sample_layer)).
Proof.
  destruct (init_and_get_metadata_preserve_order full_record sample_specs
              new_model sample_layer {| blobs_requested := 6 |} eq_refl)
    as (Hnames & metadata & Hrun & Horder & Hblobs).
  split; [exact (Hnames sample_names_plain)|].
  exists metadata. split; [exact Hrun|]. split; [exact Horder|].
  exact (Hblobs sample_names_plain).
Defined.

(** ** C10: the 'cardinality' key *)

(** C10: in the list get_metadata returns, the dictionary of the element
    for an entry has the key 'cardinality' exactly when the entry's type
    is 'FLOAT', and then with value 1; the dictionaries for 'ID_LIST' and
    'ID_SCORE_LIST' entries have no such key. *)
Theorem cardinality_key_iff_float
  record specs model layer model' metadata i field spec d blobs types :
  __init__ record specs model = (Ok layer, model') ->
  get_metadata layer = Ok metadata ->
  specs !! i = Some (field, spec) ->
  metadata !! i = Some (d, blobs, types) ->
  (is_Some (d !! "cardinality") <-> feature_type spec = "FLOAT")
  /\ (feature_type spec = "FLOAT" -> d !! "cardinality" = Some (MInt 1))
  /\ (feature_type spec = "ID_LIST" \/ feature_type spec = "ID_SCORE_LIST" ->
      d !! "cardinality" = None).
Proof.
  intros Hinit Hrun Hi Hx.
  destruct (get_metadata_built _ _ _ _ _ Hinit) as (metadata' & Hrun' & Hmeta).
  assert (metadata' = metadata) as -> by congruence.
  destruct (Forall2_lookup_l _ _ _ _ _ Hmeta Hi) as (x & Hx' & f & _ & Hxeq).
  simpl in Hxeq. subst x.
  pose proof (eq_trans (eq_sym Hx) Hx') as Heq. injection Heq as -> _ _.
  rewrite metadata_dict_cardinality.
  destruct (String.eqb_spec (feature_type spec) "FLOAT") as [HF|HF].
  - split; [by split; eauto|]. split; [done|].
    rewrite HF. intros [H|H]; discriminate H.
  - split; [split; [intros [? ?]; discriminate | contradiction]|].
    split; [contradiction | reflexivity].
Qed.

Lemma cardinality_key_iff_float_witness :
  (is_Some
     (metadata_dict
        {| feature_type := "FLOAT";
           feature_names := ["a"; "b"]; feature_ids := [1; 2]%Z |}
      !! "cardinality")
   <-> "FLOAT" = "FLOAT")
  /\ ("FLOAT" = "FLOAT" ->
      metadata_dict
        {| feature_type := "FLOAT";
           feature_names := ["a"; "b"]; feature_ids := [1; 2]%Z |}
      !! "cardinality" = Some (MInt 1))
  /\ ("FLOAT" = "ID_LIST" \/ "FLOAT" = "ID_SCORE_LIST" ->
      metadata_dict
        {| feature_type := "FLOAT";
           feature_names := ["a"; "b"]; feature_ids := [1; 2]%Z |}
      !! "cardinality" = None).
Proof.
  apply (cardinality_key_iff_float full_record sample_specs new_model
           sample_layer
           {| blobs_requested := 6 |} sample_metadata 0 "f"
           {| feature_type := "FLOAT";
              feature_names := ["a"; "b"]; feature_ids := [1; 2]%Z |}
           _ [LayerBlob "f_output" 0]
           [schema.WithShape schema.float32 [2]]);
    reflexivity.
Defined.

(** * Further properties of the three methods *)

(** ** The constructor: blobs requested *)

Lemma field_blobs_declared :
  forall f, schema.field_blobs (schema.declared f) = schema.field_blobs f.
Proof.
  fix IH 1. intros [d b m | fields]; simpl; [reflexivity|].
  induction fields as [|[n c] rest IHrest]; simpl; [reflexivity|].
  by rewrite IH, IHrest.
Qed.

Lemma field_types_declared :
  forall f, schema.field_types (schema.declared f) = schema.field_types f.
Proof.
  fix IH 1. intros [d b m | fields]; simpl; [reflexivity|].
  induction fields as [|[n c] rest IHrest]; simpl; [reflexivity|].
  by rewrite IH, IHrest.
Qed.

(** A run of the constructor that returns: the fields the first loop
    built, the references they hold, and the struct made of them. *)
Lemma init_outputs record specs model layer model' :
  __init__ record specs model = (Ok layer, model') ->
  exists outputs struct,
    Forall2 output_of specs outputs
    /\ flat_map (fun '(_, c) => schema.field_blobs c) outputs
       = numbered (blobs_requested model) (flat_map blob_names specs)
    /\ blobs_requested model'
       = blobs_requested model + length (flat_map blob_names specs)
    /\ schema.new_Struct outputs = Ok struct
    /\ schema.declared (output_schema layer) = schema.declared struct.
Proof.
  intros Hinit.
  pose proof (init_ok _ _ _ _ _ Hinit) as (_ & Hall & _).
  apply init_run in Hinit as (outputs & struct & struct' & Hloop & Hstruct
                              & Hattach & ->).
  destruct (init_loop_exact specs Hall [] model)
    as (news & Hexact & Hout & _ & Hblobs).
  rewrite Hloop in Hexact. injection Hexact as -> ->. simpl in Hstruct.
  apply attach_loop_general in Hattach as (_ & Hdecl & _).
  exists news, struct. by repeat split.
Qed.

Lemma output_of_plain specs news :
  Forall2 output_of specs news ->
  plain_names specs ->
  NoDup (map fst news)
  /\ Forall (fun x : string * schema.Field =>
               schema.has_separator x.1 = false) news.
Proof.
  intros Hnews [Hnd Hplain]. split.
  - by rewrite (output_of_names _ _ Hnews).
  - clear Hnd.
    induction Hnews as [|e o specs news [Hn _] _ IH]; [constructor|].
    apply Forall_cons in Hplain as [Hp Hplain].
    constructor; [by rewrite Hn | by apply IH].
Qed.

(** Entries whose names share a first component are merged into one
    field, so the blobs of the output schema need not come in the order
    of the requests. *)
Lemma init_nested_names_reorder_blobs :
  let float := {| feature_type := "FLOAT";
                  feature_names := []; feature_ids := [] |} in
  let specs := [("a:b", float); ("c", float); ("a:d", float)] in
  exists layer model',
    __init__ full_record specs new_model = (Ok layer, model')
    /\ schema.field_blobs (output_schema layer)
       = [LayerBlob "a:b_output" 0; LayerBlob "a:d_output" 2;
          LayerBlob "c_output" 1]
    /\ numbered 0 (flat_map blob_names specs)
       = [LayerBlob "a:b_output" 0; LayerBlob "c_output" 1;
          LayerBlob "a:d_output" 2].
Proof. eexists _, _. by repeat split. Qed.

(** X2: the constructor requests one blob reference per scalar of the
    output schema: the blobs of the schema are, each once, the references
    handed out for the names field_output (FLOAT), field_ranges,
    field_values (ID_LIST), field_ranges, field_ids, field_scores
    (ID_SCORE_LIST), numbered consecutively from the model's counter, and
    they come in that order when the field names are distinct and without
    ':'; no other request is made and no reference occurs twice. *)
Theorem init_requests_one_blob_per_scalar record specs model layer model' :
  __init__ record specs model = (Ok layer, model') ->
  schema.field_blobs (output_schema layer)
  ≡ₚ numbered (blobs_requested model) (flat_map blob_names specs)
  /\ (plain_names specs ->
      schema.field_blobs (output_schema layer)
      = numbered (blobs_requested model) (flat_map blob_names specs))
  /\ blobs_requested model'
     = blobs_requested model + length (flat_map blob_names specs)
  /\ NoDup (schema.field_blobs (output_schema layer)).
Proof.
  intros Hinit.
  destruct (init_outputs _ _ _ _ _ Hinit)
    as (news & struct & Hnews & Hblobs & Hcount & Hstruct & Hdecl).
  assert (Hsame : schema.field_blobs (output_schema layer)
                  = schema.field_blobs struct).
  { by rewrite <- (field_blobs_declared (output_schema layer)), Hdecl,
               field_blobs_declared. }
  assert (Hperm : schema.field_blobs (output_schema layer)
                  ≡ₚ numbered (blobs_requested model)
                       (flat_map blob_names specs)).
  { by rewrite Hsame, (new_Struct_blobs _ _ Hstruct), Hblobs. }
  split; [exact Hperm|]. split; [|split; [exact Hcount|]].
  - intros Hplain.
    destruct (output_of_plain _ _ Hnews Hplain) as [Hnd Hp].
    rewrite Hsame, (new_Struct_plain_inv _ _ Hnd Hp Hstruct). exact Hblobs.
  - rewrite Hperm. apply numbered_NoDup.
Qed.

Lemma init_requests_one_blob_per_scalar_witness :
  schema.field_blobs (output_schema sample_layer)
  ≡ₚ numbered 0 (flat_map blob_names sample_specs)
  /\ (plain_names sample_specs ->
      schema.field_blobs (output_schema sample_layer)
      = numbered 0 (flat_map blob_names sample_specs))
  /\ 6 = 0 + length (flat_map blob_names sample_specs)
  /\ NoDup (schema.field_blobs (output_schema sample_layer)).
Proof.
  exact (init_requests_one_blob_per_scalar full_record sample_specs new_model
           sample_layer {| blobs_requested := 6 |} eq_refl).
Defined.

(** X3: the first entry that fails a check decides how the constructor
    ends.  When all entries before it pass both checks, an entry whose
    names and ids differ in length ends it with AssertionError, and an
    entry with equal lengths and an unsupported type ends it with
    TypeError naming that entry's type; in both cases the model has handed
    out the blobs of the entries before it and none for the failing entry
    or the entries after it. *)
Theorem init_stops_at_first_failing_entry record pre field spec post model :
  Forall (fun e => lengths_agree e.2 /\ supported_type (feature_type e.2))
    pre ->
  let stopped :=
    {| blobs_requested :=
         blobs_requested model + length (flat_map blob_names pre) |} in
  (~ lengths_agree spec ->
   __init__ record (pre ++ (field, spec) :: post) model
   = (Raise AssertionError, stopped))
  /\ (lengths_agree spec ->
      ~ supported_type (feature_type spec) ->
      __init__ record (pre ++ (field, spec) :: post) model
      = (Raise (TypeError ("Unsupported input type: " ++ feature_type spec)),
         stopped)).
Proof.
  intros Hpre stopped. split.
  - intros Hbad. apply init_raise, init_loop_stops; [exact Hpre|].
    intros acc m. by apply init_entry_assertion.
  - intros Hlen Hty. apply init_raise, init_loop_stops; [exact Hpre|].
    intros acc m. by apply init_entry_unsupported.
Qed.

Lemma init_stops_at_first_failing_entry_witness :
  __init__ full_record
    (sample_specs ++
     ("bad", {| feature_type := "ID_LIST";
                feature_names := ["x"]; feature_ids := [] |}) :: [])
    new_model
  = (Raise AssertionError, {| blobs_requested := 6 |})
  /\ __init__ full_record
       (sample_specs ++
        ("bad", {| feature_type := "DENSE";
                   feature_names := ["x"]; feature_ids := [4%Z] |})
        :: sample_specs)
       new_model
     = (Raise (TypeError "Unsupported input type: DENSE"),
        {| blobs_requested := 6 |}).
Proof.
  assert (Hgood : Forall (fun e : string * FeatureSpec =>
                            lengths_agree e.2
                            /\ supported_type (feature_type e.2))
                    sample_specs).
  { repeat (constructor;
            [split; [reflexivity | unfold supported_type; simpl; tauto]|]).
    constructor. }
  split.
  - apply (init_stops_at_first_failing_entry full_record sample_specs "bad"
             {| feature_type := "ID_LIST";
                feature_names := ["x"]; feature_ids := [] |} [] new_model
             Hgood).
    unfold lengths_agree. simpl. lia.
  - apply (init_stops_at_first_failing_entry full_record sample_specs "bad"
             {| feature_type := "DENSE";
                feature_names := ["x"]; feature_ids := [4%Z] |}
             sample_specs new_model Hgood).
    + reflexivity.
    + unfold supported_type. simpl. intros [H|[H|H]]; discriminate H.
Defined.

(** ** The constructor: metadata attached to the scalars *)

Lemma field_metadata_attach md :
  forall f,
    Forall (fun m => m = Some md)
      (field_metadata (schema.attach_metadata_to_scalars md f)).
Proof.
  fix IH 1. intros [d b m | fields]; simpl.
  - by constructor.
  - induction fields as [|[n c] rest IHrest]; simpl.
    + constructor.
    + apply Forall_app. split; [apply IH | exact IHrest].
Qed.

Lemma field_metadata_attach_length md :
  forall f,
    length (field_metadata (schema.attach_metadata_to_scalars md f))
    = length (schema.field_blobs f).
Proof.
  fix IH 1. intros [d b m | fields]; simpl; [reflexivity|].
  induction fields as [|[n c] rest IHrest]; simpl; [reflexivity|].
  by rewrite !length_app, IH, IHrest.
Qed.

(** The second loop on entries with distinct field names without
    separator: each entry's field ends up with that entry's metadata, and
    the other fields are left as they were. *)
Lemma attach_loop_by_name specs :
  plain_names specs ->
  forall fields model,
    Forall (fun e : string * FeatureSpec => In e.1 (map fst fields)) specs ->
    exists fields',
      for_each attach_entry (schema.Struct fields) specs model
      = (Ok (schema.Struct fields'), model)
      /\ (forall field spec,
            In (field, spec) specs ->
            exists f,
              schema.lookup_field field fields = Some f
              /\ schema.lookup_field field fields'
                 = Some (schema.attach_metadata_to_scalars
                           {| schema.feature_specs := spec |} f))
      /\ (forall name,
            ~ In name (map fst specs) ->
            schema.lookup_field name fields'
            = schema.lookup_field name fields).
Proof.
  induction specs as [|[n s] specs IH]; intros [Hnd Hplain] fields model Hall.
  - exists fields. split; [reflexivity|]. split; [intros ? ? []|done].
  - simpl in Hnd. apply NoDup_cons in Hnd as [Hfresh Hnd].
    rewrite list_elem_of_In in Hfresh.
    apply Forall_cons in Hplain as [Hp Hplain]. simpl in Hp.
    apply Forall_cons in Hall as [Hin Hall]. simpl in Hin.
    apply lookup_field_is_Some in Hin as [f Hf].
    cbn [for_each]. unfold bind. rewrite attach_entry_run.
    set (g := schema.attach_metadata_to_scalars {| schema.feature_specs := s |}).
    rewrite (mutate_item_plain g fields n f Hp Hf).
    destruct (IH (conj Hnd Hplain) (schema.modify_field g n fields) model)
      as (fields' & Hrun & Hhit & Hmiss).
    { by rewrite modify_field_names. }
    exists fields'. split; [exact Hrun|]. split.
    + intros field spec [Heq|Hin].
      * injection Heq as <- <-. exists f. split; [exact Hf|].
        rewrite (Hmiss n Hfresh). by apply lookup_modify_eq.
      * destruct (Hhit field spec Hin) as (f1 & Hf1 & Hf').
        assert (Hne : n <> field).
        { intros ->. apply Hfresh, in_map_iff. by exists (field, spec). }
        rewrite (lookup_modify_ne g n field fields Hne) in Hf1.
        by exists f1.
    + intros name Hname. simpl in Hname.
      rewrite (Hmiss name); [|tauto].
      apply lookup_modify_ne. tauto.
Qed.

(** When one entry's name is the first component of another's, the two
    share a field, and the second loop leaves the metadata of the later
    entry on the scalar both reach. *)
Lemma init_nested_names_share_metadata :
  let outer := {| feature_type := "ID_LIST";
                  feature_names := []; feature_ids := [] |} in
  let inner := {| feature_type := "FLOAT";
                  feature_names := []; feature_ids := [] |} in
  exists layer model' f,
    __init__ full_record [("a", outer); ("a:b", inner)] new_model
    = (Ok layer, model')
    /\ schema.getitem (output_schema layer) "a" = Ok f
    /\ field_metadata f
       = [Some {| schema.feature_specs := outer |};
          Some {| schema.feature_specs := outer |};
          Some {| schema.feature_specs := inner |}].
Proof. eexists _, _, _. by repeat split. Qed.

(** X1: after the constructor, when the field names of input_specs are
    distinct and without ':', every scalar of output_schema[field] carries
    Metadata(feature_specs=...) of the entry of that field: one scalar
    for a FLOAT entry, two for ID_LIST, three for ID_SCORE_LIST. *)
Theorem init_attaches_feature_specs
  record specs model layer model' field spec :
  __init__ record specs model = (Ok layer, model') ->
  plain_names specs ->
  In (field, spec) specs ->
  exists f,
    schema.getitem (output_schema layer) field = Ok f
    /\ Forall (fun md => md = Some {| schema.feature_specs := spec |})
         (field_metadata f)
    /\ length (field_metadata f) = length (blob_names (field, spec)).
Proof.
  intros Hinit Hplain Hin.
  apply init_run in Hinit as (outputs & struct & struct' & Hloop & Hstruct
                              & Hattach & ->).
  apply init_loop_ok in Hloop as (_ & news & Heq & Hnews).
  simpl in Heq. subst outputs.
  destruct (output_of_plain _ _ Hnews Hplain) as [Hnd' Hp'].
  apply (new_Struct_plain_inv _ _ Hnd' Hp') in Hstruct. subst struct.
  destruct (attach_loop_by_name specs Hplain news model'
              (outputs_cover _ _ Hnews))
    as (fields' & Hrun & Hhit & _).
  rewrite Hattach in Hrun. injection Hrun as ->.
  destruct (Hhit field spec Hin) as (f0 & Hf0 & Hf).
  cbn [output_schema]. rewrite getitem_plain, Hf.
  2:{ apply (proj1 (Forall_forall _ _) (proj2 Hplain) (field, spec)).
      by apply list_elem_of_In. }
  eexists. split; [reflexivity|]. split; [apply field_metadata_attach|].
  rewrite field_metadata_attach_length.
  assert (Hs : entry_schema field spec f0).
  { apply list_elem_of_In, list_elem_of_lookup in Hin as [i Hi].
    destruct (Forall2_lookup_l _ _ _ _ _ Hnews Hi) as ([n c] & Hc & Hn & Hs).
    simpl in Hn, Hs. subst n.
    rewrite (lookup_field_nodup news Hnd' i field c Hc) in Hf0.
    by injection Hf0 as <-. }
  unfold blob_names.
  destruct Hs as [k Ht | k1 k2 Ht | k1 k2 k3 Ht]; rewrite Ht; reflexivity.
Qed.

Lemma init_attaches_feature_specs_witness :
  exists f,
    schema.getitem (output_schema sample_layer) "g" = Ok f
    /\ Forall (fun md =>
                 md = Some {| schema.feature_specs :=
                                {| feature_type := "ID_LIST";
                                   feature_names := ["c"];
                                   feature_ids := [7%Z] |} |})
         (field_metadata f)
    /\ length (field_metadata f)
       = length (blob_names
                   ("g", {| feature_type := "ID_LIST";
                            feature_names := ["c"];
                            feature_ids := [7%Z] |})).
Proof.
  apply (init_attaches_feature_specs full_record sample_specs new_model
           sample_layer {| blobs_requested := 6 |} "g"
           {| feature_type := "ID_LIST";
              feature_names := ["c"]; feature_ids := [7%Z] |}).
  - reflexivity.
  - exact sample_names_plain.
  - simpl. right. left. reflexivity.
Defined.

(** ** add_ops: the wiring of the operators *)

(** The blobs that the lookups of one entry answer with are the blobs of
    the field the first loop built for the entry. *)
Lemma entry_group_blobs self field spec k outs g f0 :
  (exists fields, output_schema self = schema.Struct fields) ->
  entry_schema field spec f0 ->
  (forall path d blob md0,
     schema.get_by_path path f0 = Some (schema.Scalar d blob md0) ->
     exists md,
       schema.get_by_path (schema.components field ++ path)
         (output_schema self)
       = Some (schema.Scalar d blob md)) ->
  entry_group self field spec k outs g ->
  outs = schema.field_blobs f0.
Proof.
  intros Hstruct Hs Hkeep Hg.
  assert (Hmember : forall member d blob md0,
            schema.get_by_path [member] f0 = Some (schema.Scalar d blob md0) ->
            output_member_blob self field member = Ok blob).
  { intros member d blob md0 Hp.
    destruct (Hkeep _ _ _ _ Hp) as (md & Hfound).
    apply get_by_path_member in Hfound as (f & Hf & Hattr).
    unfold output_member_blob.
    by rewrite (getitem_get_by_path _ _ Hstruct _ Hf), Hattr. }
  destruct Hg as [out Ht Ho Hm | r v Ht Hr Hv Hm | r i s Ht Hr Hi Hsc Hm | Hbad];
    destruct Hs as [k0 Ht' | k1 k2 Ht' | k1 k2 k3 Ht']; try congruence.
  - destruct (Hkeep [] _ _ _ eq_refl) as (md & Hfound).
    rewrite app_nil_r in Hfound.
    unfold output_blob in Ho.
    rewrite (getitem_get_by_path _ _ Hstruct _ Hfound) in Ho. simpl in Ho.
    by injection Ho as <-.
  - rewrite (Hmember "ranges" _ _ _ eq_refl) in Hr.
    rewrite (Hmember "values" _ _ _ eq_refl) in Hv.
    injection Hr as <-. by injection Hv as <-.
  - rewrite (Hmember "ranges" _ _ _ eq_refl) in Hr.
    rewrite (Hmember "ids" _ _ _ eq_refl) in Hi.
    rewrite (Hmember "scores" _ _ _ eq_refl) in Hsc.
    injection Hr as <-. injection Hi as <-. by injection Hsc as <-.
  - exfalso. apply Hbad. unfold supported_type. tauto.
  - exfalso. apply Hbad. unfold supported_type. tauto.
  - exfalso. apply Hbad. unfold supported_type. tauto.
Qed.

(** X4: on a layer the constructor returned, whenever add_ops completes,
    the operators it appended, LengthsToRanges apart, write the blobs of
    the output schema, one write per scalar of the schema: SparseToDenseMask
    writes the FLOAT scalar and the 'ranges' scalars, Alias writes
    'values', 'ids' and 'scores'; the writes come in the order of the
    schema's scalars when the field names are distinct and without ':'. *)
Theorem add_ops_writes_each_output_blob_once
  record specs model layer model' net net' :
  __init__ record specs model = (Ok layer, model') ->
  add_ops layer net = (Ok tt, net') ->
  exists emitted,
    ops net' = ops net ++ emitted
    /\ written emitted ≡ₚ schema.field_blobs (output_schema layer)
    /\ (plain_names specs ->
        written emitted = schema.field_blobs (output_schema layer)).
Proof.
  intros Hinit Hrun.
  pose proof (init_ok _ _ _ _ _ Hinit) as (Hspecs & _ & _).
  destruct (init_outputs _ _ _ _ _ Hinit)
    as (news & struct & Hnews & _ & _ & Hstruct & Hdecl).
  unfold add_ops in Hrun. rewrite Hspecs in Hrun.
  apply add_ops_loop_exact in Hrun as (groups & Hops & _ & Hgroups).
  exists (concat groups). split; [exact Hops|].
  assert (Hshape : exists fields, output_schema layer = schema.Struct fields).
  { destruct (new_Struct_is_Struct _ _ Hstruct) as [built ->].
    simpl in Hdecl. destruct (output_schema layer) as [|fields];
      [discriminate|]. by exists fields. }
  assert (Hwritten : written (concat groups)
                     = flat_map (fun '(_, c) => schema.field_blobs c) news).
  { rewrite written_concat.
    assert (Hpair : Forall2 (fun (o : string * schema.Field) g =>
                               written g = schema.field_blobs o.2)
                      news groups).
    { apply Forall2_same_length_lookup_2.
      - rewrite <- (Forall2_length _ _ _ Hnews).
        apply (Forall2_length _ _ _ Hgroups).
      - intros i [n f0] g Hf Hg. simpl.
        destruct (Forall2_lookup_r _ _ _ _ _ Hnews Hf)
          as ([field spec] & Hi & Hn & Hs).
        simpl in Hn, Hs. subst n.
        destruct (Forall2_lookup_l _ _ _ _ _ Hgroups Hi)
          as (g' & Hg' & k & outs & _ & _ & Hgroup).
        rewrite Hg in Hg'. injection Hg' as <-. simpl in Hgroup.
        rewrite (entry_group_written _ _ _ _ _ _ Hgroup).
        eapply entry_group_blobs; [exact Hshape|exact Hs| |exact Hgroup].
        intros path d blob md0 Hp.
        eapply get_by_path_declared_scalar; [exact Hdecl|].
        eapply new_Struct_keeps_scalars; [exact Hstruct| |exact Hp].
        apply list_elem_of_In. by eapply list_elem_of_lookup_2. }
    clear -Hpair.
    induction Hpair as [|[n f] g fields groups Hfg _ IH]; simpl;
      [reflexivity|].
    simpl in Hfg. by rewrite Hfg, IH. }
  assert (Hsame : schema.field_blobs (output_schema layer)
                  = schema.field_blobs struct).
  { by rewrite <- (field_blobs_declared (output_schema layer)), Hdecl,
               field_blobs_declared. }
  split.
  - by rewrite Hwritten, Hsame, (new_Struct_blobs _ _ Hstruct).
  - intros Hplain.
    destruct (output_of_plain _ _ Hnews Hplain) as [Hnd Hp].
    by rewrite Hwritten, Hsame, (new_Struct_plain_inv _ _ Hnd Hp Hstruct).
Qed.

Lemma add_ops_writes_each_output_blob_once_witness :
  exists emitted,
    ops {| ops := emitted_sample; scoped_requested := 2 |}
    = ops new_net ++ emitted
    /\ written emitted ≡ₚ schema.field_blobs (output_schema sample_layer)
    /\ (plain_names sample_specs ->
        written emitted = schema.field_blobs (output_schema sample_layer)).
Proof.
  apply (add_ops_writes_each_output_blob_once full_record sample_specs
           new_model sample_layer {| blobs_requested := 6 |} new_net
           {| ops := emitted_sample; scoped_requested := 2 |});
    reflexivity.
Defined.

Lemma ranges_feed_mask_mono lo hi lo' hi' emitted :
  lo' <= lo -> hi <= hi' ->
  ranges_feed_mask lo hi emitted -> ranges_feed_mask lo' hi' emitted.
Proof.
  intros Hlo Hhi H j op Hj Hop.
  destruct (H j op Hj Hop) as (p & k & next & Hk & Hrest).
  exists p, k, next. split; [lia | exact Hrest].
Qed.

Lemma ranges_feed_mask_app lo hi g rest :
  ranges_feed_mask lo hi g ->
  ranges_feed_mask lo hi rest ->
  ranges_feed_mask lo hi (g ++ rest).
Proof.
  intros Hg Hrest j op Hj Hop.
  apply lookup_app_Some in Hj as [Hj|[Hlen Hj]].
  - destruct (Hg j op Hj Hop) as (p & k & next & Hk & Ho & Hn & Hrest').
    exists p, k, next. split; [exact Hk|]. split; [exact Ho|].
    split; [|exact Hrest']. by apply lookup_app_l_Some.
  - destruct (Hrest _ op Hj Hop) as (p & k & next & Hk & Ho & Hn & Hrest').
    exists p, k, next. split; [exact Hk|]. split; [exact Ho|].
    split; [|exact Hrest'].
    rewrite lookup_app_r; [|lia].
    by replace (S j - length g) with (S (j - length g)) by lia.
Qed.

Lemma entry_group_feeds self field spec k outs g :
  entry_group self field spec k outs g ->
  ranges_feed_mask k (k + length (List.filter is_ranges g)) g.
Proof.
  destruct 1; intros j op Hj Hop;
    repeat (destruct j as [|j]; simpl in Hj;
            [injection Hj as <-; try discriminate Hop|]);
    try discriminate Hj;
    eexists _, _, _; (split; [|split; [reflexivity|];
                      split; [reflexivity|]; split; reflexivity]);
    simpl; lia.
Qed.

(** X5: whenever add_ops completes, every LengthsToRanges it appended
    writes a scoped blob requested during this call, and the operator
    appended right after it is a SparseToDenseMask that reads this blob as
    its second input; the net's count of scoped blobs grows by the number
    of LengthsToRanges appended. *)
Theorem add_ops_ranges_feed_next_mask self net net' :
  add_ops self net = (Ok tt, net') ->
  exists emitted,
    ops net' = ops net ++ emitted
    /\ scoped_requested net'
       = scoped_requested net + length (List.filter is_ranges emitted)
    /\ ranges_feed_mask (scoped_requested net) (scoped_requested net')
         emitted.
Proof.
  intros Hrun. unfold add_ops in Hrun.
  apply add_ops_loop_exact in Hrun as (groups & Hops & Hk & Hgroups).
  exists (concat groups). split; [exact Hops|]. split; [exact Hk|].
  clear Hops Hk.
  induction Hgroups as [|e g specs groups (k & outs & Hlo & Hhi & Hg) _ IH];
    simpl.
  - intros j op Hj. destruct j; discriminate Hj.
  - apply ranges_feed_mask_app; [|exact IH].
    eapply ranges_feed_mask_mono; [exact Hlo | exact Hhi |].
    by eapply entry_group_feeds.
Qed.

Lemma add_ops_ranges_feed_next_mask_witness :
  exists emitted,
    ops {| ops := emitted_sample; scoped_requested := 2 |}
    = ops new_net ++ emitted
    /\ 2 = 0 + length (List.filter is_ranges emitted)
    /\ ranges_feed_mask 0 2 emitted.
Proof.
  apply (add_ops_ranges_feed_next_mask sample_layer new_net
           {| ops := emitted_sample; scoped_requested := 2 |}).
  reflexivity.
Defined.

Lemma entry_group_reads self field spec k outs g :
  zero self = GlobalConstant "ZERO" ->
  zero_range self = GlobalConstant "ZERO_RANGE" ->
  entry_group self field spec k outs g ->
  Forall (reads_own_record field spec) g.
Proof.
  intros Hz Hzr Hg. unfold reads_own_record.
  destruct Hg as [out Ht Ho Hm | r v Ht Hr Hv Hm | r i s Ht Hr Hi Hsc Hm | Hbad];
    rewrite ?Ht, ?Hz, ?Hzr; simpl;
    repeat (constructor;
            [split; [|split]; intros Hop; try discriminate Hop;
             first [ reflexivity
                   | eexists; split; [reflexivity|];
                     split; [intros H; first [reflexivity | discriminate H]
                            |intros H; first [congruence | by eexists _, _]]
                   | by eexists ]
            |]);
    constructor.
Qed.

(** X6: on a layer the constructor returned, whenever add_ops completes,
    the operators appended for an entry read only the input record of
    that entry's field, the range blob and the model's constants: a
    SparseToDenseMask reads keys, then values (FLOAT) or the range blob
    (ID_LIST, ID_SCORE_LIST), then the constant ZERO (FLOAT) or
    ZERO_RANGE, then lengths; a LengthsToRanges reads values.lengths; an
    Alias reads one member of values. *)
Theorem add_ops_reads_own_record record specs model layer model' net net' :
  __init__ record specs model = (Ok layer, model') ->
  add_ops layer net = (Ok tt, net') ->
  exists groups,
    ops net' = ops net ++ concat groups
    /\ Forall2 (fun e g => Forall (reads_own_record e.1 e.2) g) specs groups.
Proof.
  intros Hinit Hrun.
  apply init_run in Hinit as (outputs & struct & struct' & _ & _ & _ & ->).
  unfold add_ops in Hrun. cbn [input_specs] in Hrun.
  apply add_ops_loop_exact in Hrun as (groups & Hops & _ & Hgroups).
  exists groups. split; [exact Hops|].
  eapply Forall2_impl; [exact Hgroups|].
  intros e g (k & outs & _ & _ & Hg).
  by eapply entry_group_reads; [| |exact Hg].
Qed.

Lemma add_ops_reads_own_record_witness :
  exists groups,
    ops {| ops := emitted_sample; scoped_requested := 2 |}
    = ops new_net ++ concat groups
    /\ Forall2 (fun e g => Forall (reads_own_record e.1 e.2) g)
         sample_specs groups.
Proof.
  apply (add_ops_reads_own_record full_record sample_specs new_model
           sample_layer {| blobs_requested := 6 |} new_net
           {| ops := emitted_sample; scoped_requested := 2 |});
    reflexivity.
Defined.

(** X7: on a layer the constructor returned, whenever add_ops completes,
    the operators already in the net are kept and the types of the
    operators appended are the concatenation, over input_specs in order,
    of the per-type sequences (one operator for FLOAT, three for ID_LIST,
    four for ID_SCORE_LIST); the net is left without a new operator only
    when input_specs is empty. *)
Theorem add_ops_appends_per_entry record specs model layer model' net net' :
  __init__ record specs model = (Ok layer, model') ->
  add_ops layer net = (Ok tt, net') ->
  (exists emitted,
     ops net' = ops net ++ emitted
     /\ map op_type emitted
        = flat_map (fun e => operators_of (feature_type e.2)) specs)
  /\ (ops net' = ops net <-> specs = []).
Proof.
  intros Hinit Hrun.
  pose proof (init_ok _ _ _ _ _ Hinit) as (Hspecs & Hall & _).
  unfold add_ops in Hrun. rewrite Hspecs in Hrun.
  apply add_ops_loop_ops in Hrun as (groups & Hops & Hgroups);
    [|eapply Forall_impl; [exact Hall|]; by intros e [_ Hty]].
  assert (Htypes : map op_type (concat groups)
                   = flat_map (fun e => operators_of (feature_type e.2))
                       specs).
  { clear -Hgroups.
    induction Hgroups as [|e g specs groups [Hg _] _ IH]; simpl;
      [reflexivity|].
    by rewrite map_app, Hg, IH. }
  split; [by exists (concat groups)|]. split.
  - intros Hsame. rewrite Hsame in Hops.
    rewrite <- (app_nil_r (ops net)) in Hops at 1.
    apply app_inv_head in Hops.
    rewrite <- Hops in Htypes. simpl in Htypes.
    destruct specs as [|[field spec] specs]; [reflexivity|].
    apply Forall_cons in Hall as [[_ Hty] _]. simpl in Hty, Htypes.
    unfold operators_of in Htypes.
    destruct Hty as [Ht|[Ht|Ht]]; rewrite Ht in Htypes; discriminate Htypes.
  - intros ->. inversion Hgroups; subst. simpl in Hops.
    by rewrite app_nil_r in Hops.
Qed.

Lemma add_ops_appends_per_entry_witness :
  (exists emitted,
     ops {| ops := emitted_sample; scoped_requested := 2 |}
     = ops new_net ++ emitted
     /\ map op_type emitted
        = flat_map (fun e => operators_of (feature_type e.2)) sample_specs)
  /\ (ops {| ops := emitted_sample; scoped_requested := 2 |} = ops new_net
      <-> sample_specs = []).
Proof.
  apply (add_ops_appends_per_entry full_record sample_specs new_model
           sample_layer {| blobs_requested := 6 |} new_net
           {| ops := emitted_sample; scoped_requested := 2 |});
    reflexivity.
Defined.

(** ** get_metadata: the dictionary keys, the blobs and the types *)

(** X8: in the list get_metadata returns, the dictionary of an element
    has the keys 'type', 'names' and 'ids', the key 'cardinality' in
    addition when the entry's type is 'FLOAT', and no other key. *)
Theorem get_metadata_dict_keys
  record specs model layer model' metadata i field spec d blobs types :
  __init__ record specs model = (Ok layer, model') ->
  get_metadata layer = Ok metadata ->
  specs !! i = Some (field, spec) ->
  metadata !! i = Some (d, blobs, types) ->
  dom d
  = if String.eqb (feature_type spec) "FLOAT"
    then ({["type"; "names"; "ids"; "cardinality"]} : gset string)
    else {["type"; "names"; "ids"]}.
Proof.
  intros Hinit Hrun Hi Hx.
  destruct (get_metadata_lookup _ _ _ _ _ _ _ _ _ _ _ _ Hinit Hrun Hi Hx)
    as (f & _ & -> & _ & _).
  unfold metadata_dict.
  destruct (String.eqb (feature_type spec) "FLOAT");
    rewrite !dom_insert_L, dom_singleton_L; set_solver.
Qed.

Lemma get_metadata_dict_keys_witness :
  dom (metadata_dict
         {| feature_type := "ID_LIST";
            feature_names := ["c"]; feature_ids := [7%Z] |})
  = if String.eqb "ID_LIST" "FLOAT"
    then ({["type"; "names"; "ids"; "cardinality"]} : gset string)
    else {["type"; "names"; "ids"]}.
Proof.
  apply (get_metadata_dict_keys full_record sample_specs new_model
           sample_layer {| blobs_requested := 6 |} sample_metadata 1 "g"
           {| feature_type := "ID_LIST";
              feature_names := ["c"]; feature_ids := [7%Z] |}
           _ [LayerBlob "g_ranges" 1; LayerBlob "g_values" 2]
           [schema.WithShape schema.int32 [1; 2]; schema.Plain schema.int64]);
    reflexivity.
Defined.

(** When one entry's name is the first component of another's, the
    element built for the first lists the blobs and types of both. *)
Lemma get_metadata_nested_names_share_blobs :
  let outer := {| feature_type := "ID_LIST";
                  feature_names := []; feature_ids := [] |} in
  let inner := {| feature_type := "FLOAT";
                  feature_names := []; feature_ids := [] |} in
  exists layer model' metadata d blobs types,
    __init__ full_record [("a", outer); ("a:b", inner)] new_model
    = (Ok layer, model')
    /\ get_metadata layer = Ok metadata
    /\ metadata !! 0 = Some (d, blobs, types)
    /\ length types = 3
    /\ length (dtypes_of outer) = 2.
Proof. eexists _, _, _, _, _, _. by repeat split. Qed.

(** X9: on a layer the constructor returned for field names that are
    distinct and without ':', the element get_metadata builds for an
    entry lists the dtypes the dispatch declared for the entry's type, in
    field order, and the blobs the constructor requested for that entry,
    under the names it requested them with. *)
Theorem get_metadata_reports_declared_types
  record specs model layer model' metadata i field spec d blobs types :
  __init__ record specs model = (Ok layer, model') ->
  plain_names specs ->
  get_metadata layer = Ok metadata ->
  specs !! i = Some (field, spec) ->
  metadata !! i = Some (d, blobs, types) ->
  types = dtypes_of spec
  /\ map requested_name blobs = map Some (blob_names (field, spec)).
Proof.
  intros Hinit Hplain Hrun Hi Hx.
  destruct (get_metadata_lookup _ _ _ _ _ _ _ _ _ _ _ _ Hinit Hrun Hi Hx)
    as (f & Hget & _ & -> & ->).
  destruct (init_field_plain _ _ _ _ _ _ _ _ Hinit Hplain Hi)
    as (f' & _ & Hs & Hget').
  rewrite Hget' in Hget. injection Hget as <-.
  rewrite <- field_types_declared, <- field_blobs_declared.
  unfold dtypes_of, blob_names.
  destruct Hs as [k Ht | k1 k2 Ht | k1 k2 k3 Ht]; rewrite Ht; by split.
Qed.

Lemma get_metadata_reports_declared_types_witness :
  [schema.WithShape schema.int32 [0; 2]; schema.Plain schema.int64;
   schema.Plain schema.float32]
  = dtypes_of {| feature_type := "ID_SCORE_LIST";
                 feature_names := []; feature_ids := [] |}
  /\ map requested_name
       [LayerBlob "h_ranges" 3; LayerBlob "h_ids" 4; LayerBlob "h_scores" 5]
     = map Some
         (blob_names ("h", {| feature_type := "ID_SCORE_LIST";
                              feature_names := []; feature_ids := [] |})).
Proof.
  apply (get_metadata_reports_declared_types full_record sample_specs
           new_model sample_layer {| blobs_requested := 6 |} sample_metadata
           2 "h"
           {| feature_type := "ID_SCORE_LIST";
              feature_names := []; feature_ids := [] |}
           (metadata_dict {| feature_type := "ID_SCORE_LIST";
                             feature_names := []; feature_ids := [] |})).
  - reflexivity.
  - exact sample_names_plain.
  - reflexivity.
  - reflexivity.
  - reflexivity.
Defined.
